(** * InceptionTime (src/inception/inception.py) in Rocq

    The module computes a graph of tensor operations whose numerics are
    delegated to PyTorch.  A tensor is modelled by what the code can observe
    and build: its shape (Python ints, so [Z]) and the expression graph of
    the operations that produced it.  Each PyTorch primitive the code calls
    ([F.pad], [F.conv1d], [nn.BatchNorm1d], [nn.ReLU], [+], [mean],
    [nn.Linear]) checks and computes shapes the way PyTorch does, raising
    where PyTorch raises, and records a node in the graph.  Construction of
    modules is stateful: every layer built is registered in a log, and gets
    its parameter identifier from the position in that log. *)

From Stdlib Require Import ZArith List Bool Lia.
Import ListNotations.

Open Scope Z_scope.
#[local] Set Warnings "-register-all".

(** ** Python / PyTorch exceptions and the error monad of forward passes *)

Inductive exn : Type :=
| AssertionError
| RuntimeError
| ZeroDivisionError
| IndexError
| AttributeError
| ValueError.

Inductive result (A : Type) : Type :=
| Ok (a : A)
| Err (e : exn).
Arguments Ok {A} a.
Arguments Err {A} e.

Definition rbind {A B} (m : result A) (k : A -> result B) : result B :=
  match m with
  | Ok a => k a
  | Err e => Err e
  end.

Notation "x <- m ;; k" := (rbind m (fun x => k))
  (at level 61, m at next level, right associativity).

Definition raise {A} (e : exn) : result A := Err e.

(** ** Tensors: shape and computation graph *)

(** Graph nodes, one per primitive the code applies.  [GParam i] is the
    weight of the [i]-th registered layer. *)
Inductive expr : Type :=
| GInput
| GParam (id : nat)
| GPad (left right : Z) (x : expr)
| GConv1d (x w : expr) (b : option expr) (stride padding dilation groups : Z)
| GBatchNorm (id : nat) (x : expr)
| GReLU (x : expr)
| GAdd (x y : expr)
| GMean (x : expr)
| GLinear (id : nat) (x : expr).

Record Tensor : Type := mkTensor {
  shape : list Z;
  graph : expr
}.

(** [tensor.size(d)], negative [d] counting from the end, [IndexError]
    out of range. *)
Definition size (t : Tensor) (d : Z) : result Z :=
  let n := Z.of_nat (length (shape t)) in
  let d' := if d <? 0 then d + n else d in
  if (0 <=? d') && (d' <? n) then Ok (nth (Z.to_nat d') (shape t) 0)
  else raise IndexError.

(** [F.pad(input, [left, right])]: constant zero padding of the last
    dimension. *)
Definition F_pad (input : Tensor) (left right : Z) : result Tensor :=
  match rev (shape input) with
  | [] => raise RuntimeError
  | l :: rest =>
      Ok (mkTensor (rev (l + left + right :: rest)) (GPad left right (graph input)))
  end.

(** [F.conv1d(input, weight, bias, stride, padding, dilation, groups)] on a
    batched [[N, C, L]] or unbatched [[C, L]] input and a weight
    [[O, C / groups, K]]. *)
Definition conv1d_out_length (l k stride padding dilation : Z) : result Z :=
  if l + 2 * padding <? dilation * (k - 1) + 1 then raise RuntimeError
  else Ok ((l + 2 * padding - dilation * (k - 1) - 1) / stride + 1).

Definition F_conv1d (input weight : Tensor) (bias : option Tensor)
    (stride padding dilation groups : Z) : result Tensor :=
  if (stride <=? 0) || (padding <? 0) || (dilation <=? 0) || (groups <=? 0)
  then raise RuntimeError else
  match shape weight with
  | [o; cg; k] =>
      let bias_ok :=
        match bias with
        | None => true
        | Some b => match shape b with [o'] => o' =? o | _ => false end
        end in
      if negb bias_ok || negb (o mod groups =? 0) then raise RuntimeError else
      (* "expected weight to be at least [groups] at dimension 0",
         "kernel size should be greater than zero" *)
      if (o <? groups) || (k <=? 0) then raise RuntimeError else
      let g := GConv1d (graph input) (graph weight) (option_map graph bias)
                 stride padding dilation groups in
      match shape input with
      | [n; c; l] =>
          if negb (c =? cg * groups) then raise RuntimeError else
          l' <- conv1d_out_length l k stride padding dilation ;;
          Ok (mkTensor [n; o; l'] g)
      | [c; l] =>
          if negb (c =? cg * groups) then raise RuntimeError else
          l' <- conv1d_out_length l k stride padding dilation ;;
          Ok (mkTensor [o; l'] g)
      | _ => raise RuntimeError
      end
  | _ => raise RuntimeError
  end.

(** ** [conv1d_same_padding] (lines 110-126) *)

(** Lines 116-118: the padding computed from the two sizes the code reads.
    Python's [//] is floor division, [Z.div]. *)
Definition same_padding_length (input_length filter_length stride dilation : Z) : Z :=
  let effective_filter_size_length := (filter_length - 1) * dilation + 1 in
  let out_length := (input_length + stride - 1) / stride in
  Z.max 0 ((out_length - 1) * stride + effective_filter_size_length - input_length).

(** Lines 119-126: an odd padding adds one zero at the end of the
    sequence, and [F.conv1d] pads [padding_length // 2] on both sides. *)
Definition pad_and_conv (padding_length : Z) (input weight : Tensor)
    (bias : option Tensor) (stride dilation groups : Z) : result Tensor :=
  let length_odd := negb (padding_length mod 2 =? 0) in
  input <- (if length_odd then F_pad input 0 (Z.b2z length_odd) else Ok input) ;;
  F_conv1d input weight bias stride (padding_length / 2) dilation groups.

(** [stride] and [dilation] are the first components of the tuples the
    module passes; a zero stride is Python's [ZeroDivisionError] on line
    117. *)
Definition conv1d_same_padding (input weight : Tensor) (bias : option Tensor)
    (stride dilation groups : Z) : result Tensor :=
  input_length <- size input 1 ;;
  filter_length <- size weight 1 ;;
  if stride =? 0 then raise ZeroDivisionError else
  let padding_length := same_padding_length input_length filter_length stride dilation in
  pad_and_conv padding_length input weight bias stride dilation groups.

(** ** The remaining primitives *)

(** [nn.BatchNorm1d(num_features)] on [[N, C]] or [[N, C, L]], in training
    mode (the mode modules are constructed in; the source never switches
    to [eval()]): another rank raises [ValueError] ([_check_input_dim]), a
    batch of a single value per channel ([N * L = 1]) raises [ValueError]
    ([_verify_batch_size]), and a channel count other than [num_features]
    raises [RuntimeError]. *)
Record BatchNorm1d : Type := mkBatchNorm1d {
  bn_id : nat;
  num_features : Z
}.

Definition BatchNorm1d_forward (m : BatchNorm1d) (x : Tensor) : result Tensor :=
  let check (size_prods c : Z) :=
    if size_prods =? 1 then raise ValueError
    else if c =? num_features m then Ok (mkTensor (shape x) (GBatchNorm (bn_id m) (graph x)))
    else raise RuntimeError in
  match shape x with
  | [n; c] => check n c
  | [n; c; l] => check (n * l) c
  | _ => raise ValueError
  end.

(** [nn.ReLU()], elementwise. *)
Definition ReLU_forward (x : Tensor) : result Tensor :=
  Ok (mkTensor (shape x) (GReLU (graph x))).

(** [x + y] with PyTorch broadcasting: shapes aligned from the right, each
    pair of sizes equal or one of them 1. *)
Fixpoint broadcast_rev (a b : list Z) : option (list Z) :=
  match a, b with
  | [], _ => Some b
  | _, [] => Some a
  | x :: a', y :: b' =>
      match broadcast_rev a' b' with
      | None => None
      | Some r =>
          if x =? y then Some (x :: r)
          else if x =? 1 then Some (y :: r)
          else if y =? 1 then Some (x :: r)
          else None
      end
  end.

Definition tensor_add (x y : Tensor) : result Tensor :=
  match broadcast_rev (rev (shape x)) (rev (shape y)) with
  | Some s => Ok (mkTensor (rev s) (GAdd (graph x) (graph y)))
  | None => raise RuntimeError
  end.

(** [x.mean(dim=-1)]; a 0-d tensor is returned as it is. *)
Definition mean_last (x : Tensor) : result Tensor :=
  match rev (shape x) with
  | [] => Ok (mkTensor [] (GMean (graph x)))
  | _ :: rest => Ok (mkTensor (rev rest) (GMean (graph x)))
  end.

(** [nn.Linear(in_features, out_features)]. *)
Record Linear : Type := mkLinear {
  lin_id : nat;
  in_features : Z;
  out_features : Z
}.

Definition Linear_forward (m : Linear) (x : Tensor) : result Tensor :=
  match rev (shape x) with
  | f :: rest =>
      if f =? in_features m
      then Ok (mkTensor (rev (out_features m :: rest)) (GLinear (lin_id m) (graph x)))
      else raise RuntimeError
  | [] => raise RuntimeError
  end.

(** ** [Conv1dSamePadding] (lines 98-107) *)

(** An [nn.Conv1d] whose weight has shape [[out, in / groups, kernel]];
    [stride] and [dilation] are the one-element tuples of [nn.Conv1d]. *)
Record Conv1dSamePadding : Type := mkConv1dSamePadding {
  conv_id : nat;
  conv_in_channels : Z;
  conv_out_channels : Z;
  conv_kernel_size : Z;
  conv_stride : Z;
  conv_dilation : Z;
  conv_groups : Z;
  conv_has_bias : bool
}.

Definition conv_weight (c : Conv1dSamePadding) : Tensor :=
  mkTensor [conv_out_channels c; conv_in_channels c / conv_groups c; conv_kernel_size c]
           (GParam (conv_id c)).

Definition conv_bias (c : Conv1dSamePadding) : option Tensor :=
  if conv_has_bias c then Some (mkTensor [conv_out_channels c] (GParam (conv_id c))) else None.

Definition Conv1dSamePadding_forward (c : Conv1dSamePadding) (input : Tensor) : result Tensor :=
  conv1d_same_padding input (conv_weight c) (conv_bias c) (conv_stride c)
                      (conv_dilation c) (conv_groups c).

(** Modules held in an [nn.Sequential], applied in order. *)
Inductive layer : Type :=
| LConv (c : Conv1dSamePadding)
| LBatchNorm (b : BatchNorm1d)
| LReLU.

Definition layer_forward (l : layer) (x : Tensor) : result Tensor :=
  match l with
  | LConv c => Conv1dSamePadding_forward c x
  | LBatchNorm b => BatchNorm1d_forward b x
  | LReLU => ReLU_forward x
  end.

Fixpoint Sequential_forward {L : Type} (f : L -> Tensor -> result Tensor)
    (ls : list L) (x : Tensor) : result Tensor :=
  match ls with
  | [] => Ok x
  | l :: ls' => y <- f l x ;; Sequential_forward f ls' y
  end.

(** ** Module construction: registration log and errors *)

(** What [__init__] builds, in order. *)
Inductive built : Type :=
| BConv1d (in_channels out_channels kernel_size stride : Z)
| BBatchNorm1d (num_features : Z)
| BReLU
| BLinear (in_features out_features : Z).

Definition M (A : Type) : Type := list built -> result A * list built.

Definition mret {A} (a : A) : M A := fun s => (Ok a, s).

Definition mbind {A B} (m : M A) (k : A -> M B) : M B :=
  fun s => match m s with
           | (Ok a, s') => k a s'
           | (Err e, s') => (Err e, s')
           end.

Notation "x <-- m ;;; k" := (mbind m (fun x => k))
  (at level 61, m at next level, right associativity).

Definition lift {A} (r : result A) : M A := fun s => (r, s).

Definition register (b : built) : M nat := fun s => (Ok (length s), s ++ [b]).

Fixpoint mmap {A B} (f : A -> M B) (l : list A) : M (list B) :=
  match l with
  | [] => mret []
  | a :: l' => b <-- f a ;;; bs <-- mmap f l' ;;; mret (b :: bs)
  end.

(** [range(n)]. *)
Definition range (n : Z) : list Z := map Z.of_nat (seq 0 (Z.to_nat n)).

(** [nn.Conv1d.__init__] with dilation 1 and groups 1 (the only values this
    file uses), so its divisibility checks by [groups] pass; allocating the
    weight fails on a negative dimension. *)
Definition new_Conv1dSamePadding (in_channels out_channels kernel_size stride : Z)
    (bias : bool) : M Conv1dSamePadding :=
  if (in_channels <? 0) || (out_channels <? 0) || (kernel_size <? 0)
  then lift (raise RuntimeError) else
  i <-- register (BConv1d in_channels out_channels kernel_size stride) ;;;
  mret (mkConv1dSamePadding i in_channels out_channels kernel_size stride 1 1 bias).

Definition new_BatchNorm1d (n : Z) : M BatchNorm1d :=
  if n <? 0 then lift (raise RuntimeError) else
  i <-- register (BBatchNorm1d n) ;;; mret (mkBatchNorm1d i n).

Definition new_ReLU : M nat := register BReLU.

Definition new_Linear (i o : Z) : M Linear :=
  if (i <? 0) || (o <? 0) then lift (raise RuntimeError) else
  k <-- register (BLinear i o) ;;; mret (mkLinear k i o).

(** ** [InceptionBlock] (lines 52-95) *)

Record InceptionBlock : Type := mkInceptionBlock {
  use_bottleneck : bool;
  bottleneck : option Conv1dSamePadding;
  conv_layers : list layer;
  batchnorm : BatchNorm1d;
  relu : nat;
  use_residual : bool;
  residual : option (list layer)
}.

Definition InceptionBlock_init (in_channels out_channels : Z) (residual : bool)
    (stride bottleneck_channels kernel_size : Z) : M InceptionBlock :=
  let use_bottleneck := 0 <? bottleneck_channels in
  bottleneck <--
    (if use_bottleneck
     then c <-- new_Conv1dSamePadding in_channels bottleneck_channels 1 1 false ;;;
          mret (Some c)
     else mret None) ;;;
  let kernel_size_s := map (fun i => kernel_size / 2 ^ i) (range 3) in
  let channels := [bottleneck_channels] ++ repeat out_channels 3 in
  conv_layers <--
    mmap (fun i => c <-- new_Conv1dSamePadding (nth i channels 0) (nth (S i) channels 0)
                                               (nth i kernel_size_s 0) stride false ;;;
                   mret (LConv c))
         (seq 0 (length kernel_size_s)) ;;;
  batchnorm <-- new_BatchNorm1d (last channels 0) ;;;
  relu <-- new_ReLU ;;;
  res <--
    (if residual
     then c <-- new_Conv1dSamePadding in_channels out_channels 1 stride false ;;;
          b <-- new_BatchNorm1d out_channels ;;;
          _ <-- new_ReLU ;;;
          mret (Some [LConv c; LBatchNorm b; LReLU])
     else mret None) ;;;
  mret (mkInceptionBlock use_bottleneck bottleneck conv_layers batchnorm relu residual res).

Definition InceptionBlock_forward (blk : InceptionBlock) (x : Tensor) : result Tensor :=
  let org_x := x in
  x <- (if use_bottleneck blk
        then match bottleneck blk with
             | Some c => Conv1dSamePadding_forward c x
             | None => raise AttributeError
             end
        else Ok x) ;;
  x <- Sequential_forward layer_forward (conv_layers blk) x ;;
  if use_residual blk
  then match residual blk with
       | Some r => r' <- Sequential_forward layer_forward r org_x ;; tensor_add x r'
       | None => raise AttributeError
       end
  else Ok x.

(** ** [InceptionModel] (lines 8-49) *)

(** A hyperparameter given as a scalar or as a Python list. *)
Inductive hyper (A : Type) : Type :=
| Scalar (a : A)
| PerBlock (l : list A).
Arguments Scalar {A} a.
Arguments PerBlock {A} l.

(** [use_residuals]: the string ['default'], a bool or a list of bools. *)
Inductive residuals_arg : Type :=
| ResDefault
| ResFlag (b : bool)
| ResList (l : list bool).

(** Lines 13-22. *)
Definition _expand_to_blocks {A} (value : hyper A) (num_blocks : Z) : result (list A) :=
  match value with
  | PerBlock l =>
      if Z.of_nat (length l) =? num_blocks then Ok l else raise AssertionError
  | Scalar v => Ok (repeat v (Z.to_nat num_blocks))
  end.

(** Lines 33-35. *)
Definition default_residuals (num_blocks : Z) : list bool :=
  map (fun i => if i mod 3 =? 2 then true else false) (range num_blocks).

Definition expand_use_residuals (use_residuals : residuals_arg) (num_blocks : Z)
    : result (list bool) :=
  let use_residuals :=
    match use_residuals with
    | ResDefault => PerBlock (default_residuals num_blocks)
    | ResFlag b => Scalar b
    | ResList l => PerBlock l
    end in
  _expand_to_blocks use_residuals num_blocks.

Record InceptionModel : Type := mkInceptionModel {
  blocks : list InceptionBlock;
  linear : Linear
}.

Definition InceptionModel_init (num_blocks in_channels : Z) (out_channels : hyper Z)
    (bottleneck_channels : hyper Z) (kernel_sizes : hyper Z)
    (use_residuals : residuals_arg) (num_pred_classes : Z) : M InceptionModel :=
  outs <-- lift (_expand_to_blocks out_channels num_blocks) ;;;
  let channels := [in_channels] ++ outs in
  bottleneck_channels <-- lift (_expand_to_blocks bottleneck_channels num_blocks) ;;;
  kernel_sizes <-- lift (_expand_to_blocks kernel_sizes num_blocks) ;;;
  use_residuals <-- lift (expand_use_residuals use_residuals num_blocks) ;;;
  blocks <--
    mmap (fun i => InceptionBlock_init (nth i channels 0) (nth (S i) channels 0)
                     (nth i use_residuals false) 1 (nth i bottleneck_channels 0)
                     (nth i kernel_sizes 0))
         (seq 0 (Z.to_nat num_blocks)) ;;;
  linear <-- new_Linear (last channels 0) num_pred_classes ;;;
  mret (mkInceptionModel blocks linear).

Definition InceptionModel_forward (m : InceptionModel) (x : Tensor) : result Tensor :=
  x <- Sequential_forward InceptionBlock_forward (blocks m) x ;;
  x <- mean_last x ;;
  Linear_forward (linear m) x.

(** ** Shapes used by the further properties *)

(** A main-path convolution of a block: bias-free, dilation 1, groups 1,
    with the block's stride. *)
Definition plain_conv (stride : Z) (c : Conv1dSamePadding) : Prop :=
  conv_stride c = stride /\ conv_dilation c = 1 /\ conv_groups c = 1 /\
  conv_has_bias c = false.

(** Lengths along a block's main path with stride 1: the bottleneck (kernel
    1) adds [in_channels - 1], each main convolution adds its input
    channel count minus its kernel. *)
Definition main_path_lengths (in_channels bottleneck_channels out_channels kernel_size l : Z)
    : Z * Z * Z * Z :=
  let l0 := l + in_channels - 1 in
  let l1 := l0 + bottleneck_channels - kernel_size in
  let l2 := l1 + out_channels - kernel_size / 2 in
  let l3 := l2 + out_channels - kernel_size / 4 in
  (l0, l1, l2, l3).

(** Concrete tensors for the witnesses. *)
Definition input_1x3x50 : Tensor := mkTensor [1; 3; 50] GInput.
Definition weight_4x3x5 : Tensor := mkTensor [4; 3; 5] (GParam 0).
Definition input_5 : Tensor := mkTensor [5] GInput.

(** ** Properties *)

(** Ceiling division of integers, as the spec writes [ceil(c / s)]. *)
Definition ceil_div (a b : Z) : Z := - ((- a) / b).

Lemma ceil_div_py (a b : Z) : 0 < b -> (a + b - 1) / b = ceil_div a b.
Proof.
  intros Hb. unfold ceil_div.
  pose proof (Z.div_mod (a + b - 1) b ltac:(lia)) as E1.
  pose proof (Z.mod_pos_bound (a + b - 1) b Hb) as B1.
  pose proof (Z.div_mod (- a) b ltac:(lia)) as E2.
  pose proof (Z.mod_pos_bound (- a) b Hb) as B2.
  set (q1 := (a + b - 1) / b) in *. set (q2 := (- a) / b) in *.
  set (r1 := (a + b - 1) mod b) in *. set (r2 := (- a) mod b) in *.
  assert (b * (q1 + q2) < b * 1) by lia.
  assert (b * 0 < b * (q1 + q2 + 1)) by lia.
  assert (q1 + q2 < 1) by (apply (Z.mul_lt_mono_pos_l b); lia).
  assert (0 < q1 + q2 + 1) by (apply (Z.mul_lt_mono_pos_l b); lia).
  lia.
Qed.

(** C10: the padding [conv1d_same_padding] applies is computed from
    [input.size(1)] and [weight.size(1)] (with stride and dilation) only:
    two inputs with the same size along dimension 1 get the same padding,
    [max(0, (ceil(c / s) - 1) * s + (w1 - 1) * d + 1 - c)], whatever their
    lengths. *)
Theorem conv1d_same_padding_padding_from_dim1 :
  forall (x1 x2 weight : Tensor) (bias : option Tensor) (s d g c w1 : Z),
    size x1 1 = Ok c -> size x2 1 = Ok c -> size weight 1 = Ok w1 -> 0 < s ->
    let p := Z.max 0 ((ceil_div c s - 1) * s + (w1 - 1) * d + 1 - c) in
    conv1d_same_padding x1 weight bias s d g = pad_and_conv p x1 weight bias s d g /\
    conv1d_same_padding x2 weight bias s d g = pad_and_conv p x2 weight bias s d g.
Proof.
  intros x1 x2 weight bias s d g c w1 H1 H2 Hw Hs p.
  unfold conv1d_same_padding.
  rewrite H1, H2, Hw. cbn [rbind].
  replace (s =? 0) with false by (symmetry; apply Z.eqb_neq; lia).
  unfold same_padding_length, p. rewrite ceil_div_py by exact Hs.
  replace ((ceil_div c s - 1) * s + (w1 - 1) * d + 1 - c)
    with ((ceil_div c s - 1) * s + ((w1 - 1) * d + 1) - c) by ring.
  split; reflexivity.
Qed.

Lemma F_pad_graph (x x' : Tensor) (l r : Z) :
  F_pad x l r = Ok x' -> graph x' = GPad l r (graph x).
Proof.
  unfold F_pad. destruct (rev (shape x)); intros H; inversion H; reflexivity.
Qed.

Lemma F_conv1d_graph (x w y : Tensor) (b : option Tensor) (s q d g : Z) :
  F_conv1d x w b s q d g = Ok y ->
  graph y = GConv1d (graph x) (graph w) (option_map graph b) s q d g.
Proof.
  unfold F_conv1d, conv1d_out_length, raise.
  destruct (_ || _); [discriminate |].
  destruct (shape w) as [| o [| cg [| k [| ? ?]]]]; try discriminate.
  destruct (negb _ || negb _); [discriminate |].
  destruct ((_ <? _) || (_ <=? _)); [discriminate |].
  destruct (shape x) as [| a [| a0 [| a1 [| ? ?]]]]; try discriminate;
    destruct (negb _); try discriminate;
    match goal with |- context [if ?t then _ else _] => destruct t end;
    cbn; intros H; inversion H; reflexivity.
Qed.

Lemma odd_mod2 (p : Z) : Z.odd p = true -> (p mod 2 =? 0) = false.
Proof. intros H. rewrite Zmod_odd, H. reflexivity. Qed.

Lemma even_mod2 (p : Z) : Z.odd p = false -> (p mod 2 =? 0) = true.
Proof. intros H. rewrite Zmod_odd, H. reflexivity. Qed.

Lemma half_odd (p : Z) : Z.odd p = true -> p = 2 * (p / 2) + 1.
Proof.
  intros H. pose proof (Z.div_mod p 2 ltac:(lia)) as E.
  rewrite Zmod_odd, H in E. exact E.
Qed.

Lemma half_even (p : Z) : Z.odd p = false -> p = 2 * (p / 2).
Proof.
  intros H. pose proof (Z.div_mod p 2 ltac:(lia)) as E.
  rewrite Zmod_odd, H in E. lia.
Qed.

(** C4: when the computed total padding is odd, [conv1d_same_padding]
    pads its input with [F.pad(input, [0, 1])] (no zero at the start, one
    at the end) and passes [padding_length // 2] to [F.conv1d], which adds
    that many zeros on both sides; the two parts add up to the total. *)
Theorem conv1d_same_padding_odd_extra_right :
  forall (x weight y : Tensor) (bias : option Tensor) (s d g c w1 : Z),
    size x 1 = Ok c -> size weight 1 = Ok w1 -> 0 < s ->
    Z.odd (same_padding_length c w1 s d) = true ->
    conv1d_same_padding x weight bias s d g = Ok y ->
    let p := same_padding_length c w1 s d in
    graph y = GConv1d (GPad 0 1 (graph x)) (graph weight) (option_map graph bias)
                      s (p / 2) d g
    /\ p = (p / 2) + (p / 2 + 1).
Proof.
  intros x weight y bias s d g c w1 Hx Hw Hs Hodd Hy p.
  unfold conv1d_same_padding in Hy. rewrite Hx, Hw in Hy. cbn [rbind] in Hy.
  replace (s =? 0) with false in Hy by (symmetry; apply Z.eqb_neq; lia).
  unfold pad_and_conv in Hy. fold p in Hy, Hodd.
  rewrite (odd_mod2 p Hodd) in Hy. cbn [negb Z.b2z] in Hy.
  destruct (F_pad x 0 1) as [x' |] eqn:Hpad; [| discriminate]. cbn [rbind] in Hy.
  split.
  - rewrite (F_conv1d_graph _ _ _ _ _ _ _ _ Hy), (F_pad_graph _ _ _ _ Hpad). reflexivity.
  - pose proof (half_odd p Hodd). lia.
Qed.

Lemma size_1_of_3 (t : Tensor) (a b c : Z) :
  shape t = [a; b; c] -> size t 1 = Ok b.
Proof. intros H. unfold size. rewrite H. reflexivity. Qed.

Lemma conv1d_same_padding_unit_length :
  forall (x weight : Tensor) (n c l o k : Z),
    shape x = [n; c; l] -> shape weight = [o; c; k] ->
    1 <= c -> 1 <= o -> 1 <= k -> k <= l + c - 1 ->
    exists y, conv1d_same_padding x weight None 1 1 1 = Ok y /\ shape y = [n; o; l + c - k].
Proof.
  intros x weight n c l o k Hx Hw Hc Ho Hk1 Hk.
  unfold conv1d_same_padding.
  rewrite (size_1_of_3 _ _ _ _ Hx), (size_1_of_3 _ _ _ _ Hw). cbn [rbind Z.eqb].
  unfold same_padding_length.
  replace ((c + 1 - 1) / 1) with c by (rewrite Z.div_1_r; lia).
  replace (Z.max 0 ((c - 1) * 1 + ((c - 1) * 1 + 1) - c)) with (c - 1) by lia.
  unfold pad_and_conv.
  destruct (Z.odd (c - 1)) eqn:Hp.
  - rewrite (odd_mod2 _ Hp). pose proof (half_odd _ Hp).
    unfold F_pad. rewrite Hx. cbn -[Z.add Z.sub Z.mul Z.div].
    unfold F_conv1d, conv1d_out_length. rewrite Hw. cbn [shape].
    replace ((c - 1) / 2 <? 0) with false by (symmetry; apply Z.ltb_ge; lia).
    rewrite Z.mod_1_r, Z.mul_1_r. rewrite !Z.eqb_refl. cbn -[Z.add Z.sub Z.mul Z.div].
    rewrite (proj2 (Z.ltb_ge o 1) ltac:(lia)), (proj2 (Z.leb_gt k 0) ltac:(lia)).
    cbn -[Z.add Z.sub Z.mul Z.div].
    replace (l + 0 + 1 + 2 * ((c - 1) / 2) <? 1 * (k - 1) + 1) with false
      by (symmetry; apply Z.ltb_ge; lia).
    cbn -[Z.add Z.sub Z.mul Z.div]. eexists; split; [reflexivity |].
    cbn [shape]. rewrite Z.div_1_r. do 3 f_equal. lia.
  - rewrite (even_mod2 _ Hp). pose proof (half_even _ Hp).
    cbn [negb rbind]. unfold F_conv1d, conv1d_out_length. rewrite Hw, Hx.
    replace ((c - 1) / 2 <? 0) with false by (symmetry; apply Z.ltb_ge; lia).
    rewrite Z.mod_1_r, Z.mul_1_r. rewrite !Z.eqb_refl. cbn -[Z.add Z.sub Z.mul Z.div].
    rewrite (proj2 (Z.ltb_ge o 1) ltac:(lia)), (proj2 (Z.leb_gt k 0) ltac:(lia)).
    cbn -[Z.add Z.sub Z.mul Z.div].
    replace (l + 2 * ((c - 1) / 2) <? 1 * (k - 1) + 1) with false
      by (symmetry; apply Z.ltb_ge; lia).
    cbn -[Z.add Z.sub Z.mul Z.div]. eexists; split; [reflexivity |].
    cbn [shape]. rewrite Z.div_1_r. do 3 f_equal. lia.
Qed.


(** *** Successful construction *)

Lemma mbind_ok {A B} (m : M A) (k : A -> M B) (s s' : list built) (b : B) :
  mbind m k s = (Ok b, s') -> exists a s1, m s = (Ok a, s1) /\ k a s1 = (Ok b, s').
Proof.
  unfold mbind. destruct (m s) as [[a | e] s1]; intros H; [eauto | discriminate].
Qed.

Lemma mret_ok {A} (a b : A) (s s' : list built) :
  mret a s = (Ok b, s') -> a = b /\ s' = s.
Proof. intros H. inversion H. auto. Qed.

Lemma new_Conv1dSamePadding_ok (i o k st : Z) (bias : bool) s c s' :
  new_Conv1dSamePadding i o k st bias s = (Ok c, s') ->
  conv_in_channels c = i /\ conv_out_channels c = o /\ conv_kernel_size c = k /\
  conv_stride c = st /\ conv_dilation c = 1 /\ conv_groups c = 1 /\ conv_has_bias c = bias.
Proof.
  unfold new_Conv1dSamePadding, lift, raise.
  destruct (_ || _); [discriminate |].
  intros H. apply mbind_ok in H as (a & s1 & _ & H).
  apply mret_ok in H as [<- _]. cbn. tauto.
Qed.

Lemma new_BatchNorm1d_ok (n : Z) s b s' :
  new_BatchNorm1d n s = (Ok b, s') -> num_features b = n.
Proof.
  unfold new_BatchNorm1d, lift, raise. destruct (n <? 0); [discriminate |].
  intros H. apply mbind_ok in H as (a & s1 & _ & H).
  apply mret_ok in H as [<- _]. reflexivity.
Qed.

Ltac inv_ok :=
  repeat match goal with
  | H : mbind _ _ _ = (Ok _, _) |- _ =>
      let a := fresh "a" in let s := fresh "s" in let H1 := fresh "H" in
      apply mbind_ok in H as (a & s & H1 & H)
  | H : mret _ _ = (Ok _, _) |- _ =>
      let E := fresh "E" in let E' := fresh "E" in
      apply mret_ok in H as [E E']; subst
  | H : new_Conv1dSamePadding _ _ _ _ _ _ = (Ok _, _) |- _ =>
      apply new_Conv1dSamePadding_ok in H
  | H : new_BatchNorm1d _ _ = (Ok _, _) |- _ =>
      apply new_BatchNorm1d_ok in H
  end.

(** What a successfully built [InceptionBlock] holds (lines 62-85). *)
Lemma InceptionBlock_init_ok (in_channels out_channels : Z) (res : bool)
    (stride bottleneck_channels kernel_size : Z) s blk s' :
  InceptionBlock_init in_channels out_channels res stride bottleneck_channels
                      kernel_size s = (Ok blk, s') ->
  use_bottleneck blk = (0 <? bottleneck_channels) /\
  (use_bottleneck blk = false -> bottleneck blk = None) /\
  (exists c1 c2 c3, conv_layers blk = [LConv c1; LConv c2; LConv c3] /\
     conv_in_channels c1 = bottleneck_channels /\ conv_out_channels c1 = out_channels /\
     conv_groups c1 = 1) /\
  use_residual blk = res /\
  (res = true -> exists c bn, residual blk = Some [LConv c; LBatchNorm bn; LReLU] /\
     conv_in_channels c = in_channels /\ conv_out_channels c = out_channels /\
     conv_kernel_size c = 1 /\ conv_stride c = stride /\ num_features bn = out_channels) /\
  (res = false -> residual blk = None).
Proof.
  unfold InceptionBlock_init. change (range 3) with [0; 1; 2].
  cbn [map length seq mmap nth app repeat last].
  intros H. inv_ok.
  destruct (0 <? bottleneck_channels) eqn:Hb; inv_ok;
    destruct res; inv_ok; cbn [use_bottleneck bottleneck conv_layers use_residual residual];
    repeat split; try discriminate; try tauto;
    try (do 3 eexists; split; [reflexivity | tauto]);
    try (do 2 eexists; split; [reflexivity | tauto]).
Qed.

(** *** Forward passes *)

(** Lines 88-91: the block's main path, bottleneck (if any) then the three
    convolutions. *)
Definition InceptionBlock_main_path (blk : InceptionBlock) (x : Tensor) : result Tensor :=
  x <- (if use_bottleneck blk
        then match bottleneck blk with
             | Some c => Conv1dSamePadding_forward c x
             | None => raise AttributeError
             end
        else Ok x) ;;
  Sequential_forward layer_forward (conv_layers blk) x.

(** Whether a batch normalisation or a ReLU occurs in a graph. *)
Fixpoint mentions_norm_act (e : expr) : bool :=
  match e with
  | GInput | GParam _ => false
  | GPad _ _ x | GMean x | GLinear _ x => mentions_norm_act x
  | GConv1d x w b _ _ _ _ =>
      mentions_norm_act x || mentions_norm_act w ||
      match b with Some b => mentions_norm_act b | None => false end
  | GBatchNorm _ _ | GReLU _ => true
  | GAdd x y => mentions_norm_act x || mentions_norm_act y
  end.

Lemma conv1d_same_padding_mismatch (x w : Tensor) (b : option Tensor) (s d g n c l o cg k : Z) :
  shape x = [n; c; l] -> shape w = [o; cg; k] -> c <> cg * g ->
  exists e, conv1d_same_padding x w b s d g = Err e.
Proof.
  intros Hx Hw Hc. unfold conv1d_same_padding.
  rewrite (size_1_of_3 _ _ _ _ Hx), (size_1_of_3 _ _ _ _ Hw). cbn [rbind].
  destruct (s =? 0); [eexists; reflexivity |].
  unfold pad_and_conv.
  destruct (negb (_ mod 2 =? 0)); cbn [rbind Z.b2z].
  - unfold F_pad. rewrite Hx. cbn [rev app rbind].
    unfold F_conv1d. rewrite Hw. cbn [shape rev app].
    destruct (_ || _); [eexists; reflexivity |].
    destruct (negb _ || negb _); [eexists; reflexivity |].
    destruct ((_ <? _) || (_ <=? _)); [eexists; reflexivity |].
    replace (c =? cg * g) with false by (symmetry; apply Z.eqb_neq; exact Hc).
    eexists; reflexivity.
  - unfold F_conv1d. rewrite Hw, Hx.
    destruct (_ || _); [eexists; reflexivity |].
    destruct (negb _ || negb _); [eexists; reflexivity |].
    destruct ((_ <? _) || (_ <=? _)); [eexists; reflexivity |].
    replace (c =? cg * g) with false by (symmetry; apply Z.eqb_neq; exact Hc).
    eexists; reflexivity.
Qed.

Lemma Conv1dSamePadding_forward_graph (c : Conv1dSamePadding) (x y : Tensor) :
  Conv1dSamePadding_forward c x = Ok y ->
  mentions_norm_act (graph y) = mentions_norm_act (graph x).
Proof.
  unfold Conv1dSamePadding_forward, conv1d_same_padding.
  destruct (size x 1); [| discriminate]. destruct (size _ 1); [| discriminate].
  cbn [rbind]. destruct (conv_stride c =? 0); [discriminate |].
  unfold pad_and_conv.
  destruct (negb _); cbn [rbind].
  - destruct (F_pad x 0 _) as [x' |] eqn:Hp; [| discriminate]. cbn [rbind].
    intros H. apply F_conv1d_graph in H. apply F_pad_graph in Hp.
    rewrite H, Hp. unfold conv_bias. destruct (conv_has_bias c); cbn;
      rewrite ?orb_false_r; reflexivity.
  - intros H. apply F_conv1d_graph in H. rewrite H.
    unfold conv_bias. destruct (conv_has_bias c); cbn; rewrite ?orb_false_r; reflexivity.
Qed.

(** C3: with [bottleneck_channels = 0] no bottleneck is built, but the
    first of the three convolutions is built with [channels[0] =
    bottleneck_channels = 0] input channels, not [in_channels]; its forward
    pass then rejects every input that has channels. *)
Theorem InceptionBlock_zero_bottleneck_first_conv :
  forall (in_channels out_channels : Z) (res : bool) (stride kernel_size : Z) s blk s',
    InceptionBlock_init in_channels out_channels res stride 0 kernel_size s = (Ok blk, s') ->
    use_bottleneck blk = false /\ bottleneck blk = None /\
    (exists c1 rest, conv_layers blk = LConv c1 :: rest /\ conv_in_channels c1 = 0) /\
    (forall (x : Tensor) (n c l : Z), shape x = [n; c; l] -> c <> 0 ->
       exists e, InceptionBlock_forward blk x = Err e).
Proof.
  intros in_channels out_channels res stride kernel_size s blk s' H.
  apply InceptionBlock_init_ok in H
    as (Hub & Hb & (c1 & c2 & c3 & Hl & Hin & Hout & Hg) & _).
  cbn in Hub. specialize (Hb Hub).
  split; [exact Hub |]. split; [exact Hb |]. split; [eauto |].
  intros x n c l Hx Hc.
  unfold InceptionBlock_forward. rewrite Hub, Hl. cbn [rbind Sequential_forward layer_forward].
  unfold Conv1dSamePadding_forward.
  destruct (conv1d_same_padding_mismatch x (conv_weight c1) (conv_bias c1)
              (conv_stride c1) (conv_dilation c1) (conv_groups c1) n c l
              (conv_out_channels c1) (conv_in_channels c1 / conv_groups c1)
              (conv_kernel_size c1) Hx eq_refl) as [e He].
  { rewrite Hin, Hg. cbn. lia. }
  rewrite He. eexists; reflexivity.
Qed.

(** C2: the [batchnorm] and [relu] built for the main path (lines 75-76)
    are never applied by [forward]: a block built without residual
    returns a graph with no batch normalisation and no ReLU in it. *)
Theorem InceptionBlock_forward_skips_batchnorm_relu :
  forall (in_channels out_channels stride bottleneck_channels kernel_size : Z)
         s blk s' (x y : Tensor),
    InceptionBlock_init in_channels out_channels false stride bottleneck_channels
                        kernel_size s = (Ok blk, s') ->
    mentions_norm_act (graph x) = false ->
    InceptionBlock_forward blk x = Ok y ->
    mentions_norm_act (graph y) = false.
Proof.
  intros in_channels out_channels stride bottleneck_channels kernel_size s blk s' x y H Hx.
  apply InceptionBlock_init_ok in H
    as (_ & _ & (c1 & c2 & c3 & Hl & _) & Hres & _).
  unfold InceptionBlock_forward. rewrite Hres, Hl.
  cbn [Sequential_forward layer_forward].
  destruct (if use_bottleneck blk then _ else _) as [x0 |] eqn:Hb; [| discriminate].
  assert (H0 : mentions_norm_act (graph x0) = false).
  { destruct (use_bottleneck blk); [| inversion Hb; subst; exact Hx].
    destruct (bottleneck blk); [| discriminate].
    rewrite (Conv1dSamePadding_forward_graph _ _ _ Hb). exact Hx. }
  cbn [rbind].
  destruct (Conv1dSamePadding_forward c1 x0) as [x1 |] eqn:E1; [| discriminate].
  cbn [rbind].
  destruct (Conv1dSamePadding_forward c2 x1) as [x2 |] eqn:E2; [| discriminate].
  cbn [rbind].
  destruct (Conv1dSamePadding_forward c3 x2) as [x3 |] eqn:E3; [| discriminate].
  cbn [rbind]. intros Hy. inversion Hy; subst.
  rewrite (Conv1dSamePadding_forward_graph _ _ _ E3),
          (Conv1dSamePadding_forward_graph _ _ _ E2),
          (Conv1dSamePadding_forward_graph _ _ _ E1).
  exact H0.
Qed.

(** C5: for a block built with [residual = True], [forward] adds the
    main path's output and the residual branch (a 1x1 convolution from
    [in_channels] to [out_channels], batch normalisation, ReLU) applied to
    the original input [org_x]; without residual it returns the main path's
    output. *)
Theorem InceptionBlock_forward_residual_sum :
  forall (in_channels out_channels : Z) (res : bool)
         (stride bottleneck_channels kernel_size : Z) s blk s',
    InceptionBlock_init in_channels out_channels res stride bottleneck_channels
                        kernel_size s = (Ok blk, s') ->
    (res = true ->
       exists c bn,
         conv_in_channels c = in_channels /\ conv_out_channels c = out_channels /\
         conv_kernel_size c = 1 /\ num_features bn = out_channels /\
         forall x : Tensor,
           InceptionBlock_forward blk x =
             (m <- InceptionBlock_main_path blk x ;;
              r <- Conv1dSamePadding_forward c x ;;
              r <- BatchNorm1d_forward bn r ;;
              r <- ReLU_forward r ;;
              tensor_add m r)) /\
    (res = false -> forall x : Tensor,
       InceptionBlock_forward blk x = InceptionBlock_main_path blk x).
Proof.
  intros in_channels out_channels res stride bottleneck_channels kernel_size s blk s' H.
  apply InceptionBlock_init_ok in H as (_ & _ & _ & Hres & Htrue & Hfalse).
  split.
  - intros Hr. destruct (Htrue Hr) as (c & bn & Hsome & Hin & Hout & Hk & _ & Hbn).
    exists c, bn. repeat split; try assumption.
    intros x. unfold InceptionBlock_forward, InceptionBlock_main_path.
    rewrite Hres, Hr, Hsome. cbn [Sequential_forward layer_forward].
    destruct (if use_bottleneck blk then _ else _); cbn [rbind]; [| reflexivity].
    destruct (Sequential_forward _ _ _); cbn [rbind]; [| reflexivity].
    destruct (Conv1dSamePadding_forward c x); cbn [rbind]; [| reflexivity].
    destruct (BatchNorm1d_forward bn _); cbn [rbind]; [| reflexivity].
    reflexivity.
  - intros Hr x. unfold InceptionBlock_forward, InceptionBlock_main_path.
    rewrite Hres, Hr.
    destruct (if use_bottleneck blk then _ else _); cbn [rbind]; [| reflexivity].
    destruct (Sequential_forward _ _ _); reflexivity.
Qed.

(** *** [_expand_to_blocks] and [InceptionModel.__init__] *)

Lemma lift_ok {A} (r : result A) (a : A) s s' :
  lift r s = (Ok a, s') -> r = Ok a /\ s' = s.
Proof. intros H. inversion H. auto. Qed.

Lemma mmap_ok {A B} (f : A -> M B) (l : list A) s bs s' :
  mmap f l s = (Ok bs, s') -> Forall2 (fun a b => exists s1 s2, f a s1 = (Ok b, s2)) l bs.
Proof.
  revert s bs s'. induction l as [| a l IH]; intros s bs s' H; cbn in H.
  - apply mret_ok in H as [<- _]. constructor.
  - apply mbind_ok in H as (b & s1 & Hb & H).
    apply mbind_ok in H as (bs' & s2 & Hbs & H).
    apply mret_ok in H as [<- _]. constructor.
    + exists s, s1. exact Hb.
    + exact (IH s1 bs' s2 Hbs).
Qed.

Lemma Forall2_nth_error_l {A B} (P : A -> B -> Prop) l1 l2 i a :
  Forall2 P l1 l2 -> nth_error l1 i = Some a -> exists b, nth_error l2 i = Some b /\ P a b.
Proof.
  intros HF. revert i. induction HF as [| x y l1 l2 Hxy HF IH]; intros i Hi.
  - destruct i; discriminate.
  - destruct i as [| i]; cbn in Hi |- *.
    + inversion Hi; subst. eauto.
    + apply IH, Hi.
Qed.

Lemma expand_to_blocks_err {A} (v : hyper A) (n : Z) (e : exn) :
  _expand_to_blocks v n = Err e -> e = AssertionError.
Proof.
  unfold _expand_to_blocks, raise. destruct v as [a | l]; [discriminate |].
  destruct (_ =? _); intros H; inversion H; reflexivity.
Qed.

Lemma expand_to_blocks_mismatch {A} (l : list A) (n : Z) :
  Z.of_nat (length l) <> n -> _expand_to_blocks (PerBlock l) n = Err AssertionError.
Proof.
  intros H. unfold _expand_to_blocks. rewrite (proj2 (Z.eqb_neq _ _) H). reflexivity.
Qed.

Lemma length_range (n : Z) : length (range n) = Z.to_nat n.
Proof. unfold range. rewrite length_map, length_seq. reflexivity. Qed.

(** C9: a scalar hyperparameter is broadcast to a list of [num_blocks]
    copies of itself. *)
Theorem expand_to_blocks_scalar :
  forall (A : Type) (v : A) (num_blocks : Z),
    0 <= num_blocks ->
    exists l, _expand_to_blocks (Scalar v) num_blocks = Ok l /\
              Z.of_nat (length l) = num_blocks /\ Forall (fun a => a = v) l.
Proof.
  intros A v num_blocks Hn. exists (repeat v (Z.to_nat num_blocks)).
  split; [reflexivity |]. split.
  - rewrite repeat_length. lia.
  - apply Forall_forall. intros a Ha. apply repeat_spec in Ha. exact Ha.
Qed.

(** C7: a list hyperparameter whose length is not [num_blocks] makes
    [InceptionModel.__init__] raise [AssertionError] before any layer is
    built: the registration log is left as it was. *)
Theorem InceptionModel_init_list_length_mismatch :
  forall (num_blocks in_channels : Z) (out_channels bottleneck_channels kernel_sizes : hyper Z)
         (use_residuals : residuals_arg) (num_pred_classes : Z) s,
    (exists l, out_channels = PerBlock l /\ Z.of_nat (length l) <> num_blocks) \/
    (exists l, bottleneck_channels = PerBlock l /\ Z.of_nat (length l) <> num_blocks) \/
    (exists l, kernel_sizes = PerBlock l /\ Z.of_nat (length l) <> num_blocks) \/
    (exists l, use_residuals = ResList l /\ Z.of_nat (length l) <> num_blocks) ->
    InceptionModel_init num_blocks in_channels out_channels bottleneck_channels kernel_sizes
                        use_residuals num_pred_classes s = (Err AssertionError, s).
Proof.
  intros nb ic oc bc ks ur npc s Hbad.
  unfold InceptionModel_init, mbind, lift.
  destruct (_expand_to_blocks oc nb) as [o | e] eqn:E1;
    [| rewrite (expand_to_blocks_err _ _ _ E1); reflexivity].
  destruct (_expand_to_blocks bc nb) as [b | e] eqn:E2;
    [| rewrite (expand_to_blocks_err _ _ _ E2); reflexivity].
  destruct (_expand_to_blocks ks nb) as [k | e] eqn:E3;
    [| rewrite (expand_to_blocks_err _ _ _ E3); reflexivity].
  destruct (expand_use_residuals ur nb) as [r | e] eqn:E4;
    [| unfold expand_use_residuals in E4;
       rewrite (expand_to_blocks_err _ _ _ E4); reflexivity].
  exfalso.
  destruct Hbad as [(l & -> & Hl) | [(l & -> & Hl) | [(l & -> & Hl) | (l & -> & Hl)]]].
  - rewrite expand_to_blocks_mismatch in E1 by exact Hl. discriminate.
  - rewrite expand_to_blocks_mismatch in E2 by exact Hl. discriminate.
  - rewrite expand_to_blocks_mismatch in E3 by exact Hl. discriminate.
  - unfold expand_use_residuals in E4.
    rewrite expand_to_blocks_mismatch in E4 by exact Hl. discriminate.
Qed.

Lemma nth_default_residuals (n : Z) (i : nat) :
  (i < Z.to_nat n)%nat -> nth i (default_residuals n) false = (Z.of_nat i mod 3 =? 2).
Proof.
  intros Hi. unfold default_residuals, range. rewrite map_map. cbv beta.
  set (f := fun x : nat => if Z.of_nat x mod 3 =? 2 then true else false).
  rewrite (nth_indep _ false (f 0%nat)) by (rewrite length_map, length_seq; exact Hi).
  rewrite map_nth, seq_nth by exact Hi. unfold f. cbn [Nat.add].
  destruct (Z.of_nat i mod 3 =? 2); reflexivity.
Qed.

(** C8: with [use_residuals = 'default'], block [i] of the built model is
    residual exactly when [i % 3 == 2]; for six blocks the flags are
    [[False, False, True, False, False, True]]. *)
Theorem InceptionModel_default_residuals :
  (forall (num_blocks in_channels : Z) (out_channels bottleneck_channels kernel_sizes : hyper Z)
          (num_pred_classes : Z) s m s',
     InceptionModel_init num_blocks in_channels out_channels bottleneck_channels kernel_sizes
                         ResDefault num_pred_classes s = (Ok m, s') ->
     length (blocks m) = Z.to_nat num_blocks /\
     forall i, (i < Z.to_nat num_blocks)%nat ->
       exists blk, nth_error (blocks m) i = Some blk /\
                   use_residual blk = (Z.of_nat i mod 3 =? 2)) /\
  expand_use_residuals ResDefault 6 = Ok [false; false; true; false; false; true].
Proof.
  split; [| reflexivity].
  intros nb ic oc bc ks npc s m s' H.
  unfold InceptionModel_init in H.
  apply mbind_ok in H as (o & s1 & H1 & H). apply lift_ok in H1 as [_ ->].
  apply mbind_ok in H as (b & s1 & H1 & H). apply lift_ok in H1 as [_ ->].
  apply mbind_ok in H as (k & s1 & H1 & H). apply lift_ok in H1 as [_ ->].
  apply mbind_ok in H as (r & s1 & H1 & H). apply lift_ok in H1 as [Hr ->].
  apply mbind_ok in H as (bl & s1 & Hbl & H).
  apply mbind_ok in H as (lin & s2 & _ & H). apply mret_ok in H as [<- _].
  cbn [blocks]. apply mmap_ok in Hbl.
  assert (Hr' : r = default_residuals nb).
  { unfold expand_use_residuals, _expand_to_blocks, raise in Hr.
    destruct (_ =? _); inversion Hr; reflexivity. }
  subst r. split.
  - apply Forall2_length in Hbl. rewrite <- Hbl, length_seq. reflexivity.
  - intros i Hi.
    assert (Hs : nth_error (seq 0 (Z.to_nat nb)) i = Some i).
    { rewrite nth_error_seq. destruct (Nat.ltb_spec i (Z.to_nat nb)); [reflexivity | lia]. }
    destruct (Forall2_nth_error_l _ _ _ _ _ Hbl Hs) as (blk & Hblk & s3 & s4 & Hinit).
    exists blk. split; [exact Hblk |].
    apply InceptionBlock_init_ok in Hinit as (_ & _ & _ & Hres & _).
    rewrite Hres. apply nth_default_residuals, Hi.
Qed.

(** *** The §8 stack *)

(** [InceptionModel(num_blocks=3, in_channels=2, out_channels=8,
    bottleneck_channels=4, kernel_sizes=9, use_residuals=False,
    num_pred_classes=3)]. *)
Definition section8_model : M InceptionModel :=
  InceptionModel_init 3 2 (Scalar 8) (Scalar 4) (Scalar 9) (ResFlag false) 3.

(** C6: the §8 stack maps [[5, 2, 50]] to [[5, 3]] with the linear layer
    applied last to the length-mean (no activation after it), but raises
    [RuntimeError] on [[5, 2, 4]]: the first main-path convolution's padded
    input is shorter than its kernel, because of the padding computed from
    the channel count. *)
Theorem InceptionModel_section8_forward :
  exists m s',
    section8_model [] = (Ok m, s') /\
    (exists y g, InceptionModel_forward m (mkTensor [5; 2; 50] GInput) = Ok y /\
                 shape y = [5; 3] /\ graph y = GLinear (lin_id (linear m)) (GMean g)) /\
    InceptionModel_forward m (mkTensor [5; 2; 4] GInput) = Err RuntimeError.
Proof.
  do 2 eexists. split; [cbv; reflexivity |]. split.
  - do 2 eexists. split; [cbv; reflexivity |]. split; reflexivity.
  - reflexivity.
Qed.

(** ** Witnesses *)

Definition input_1x2x100 : Tensor := mkTensor [1; 2; 100] GInput.
Definition input_1x2x7 : Tensor := mkTensor [1; 2; 7] GInput.
Definition input_1x2x50 : Tensor := mkTensor [1; 2; 50] GInput.
Definition weight_1x2x41 : Tensor := mkTensor [1; 2; 41] (GParam 0).


Lemma conv1d_same_padding_padding_from_dim1_witness :
  let p := Z.max 0 ((ceil_div 2 1 - 1) * 1 + (2 - 1) * 1 + 1 - 2) in
  conv1d_same_padding input_1x2x100 weight_1x2x41 None 1 1 1
    = pad_and_conv p input_1x2x100 weight_1x2x41 None 1 1 1 /\
  conv1d_same_padding input_1x2x7 weight_1x2x41 None 1 1 1
    = pad_and_conv p input_1x2x7 weight_1x2x41 None 1 1 1.
Proof.
  apply (conv1d_same_padding_padding_from_dim1 input_1x2x100 input_1x2x7 weight_1x2x41
           None 1 1 1 2 2); reflexivity || lia.
Defined.

Lemma conv1d_same_padding_odd_extra_right_witness :
  exists y, conv1d_same_padding input_1x2x100 weight_1x2x41 None 1 1 1 = Ok y /\
  let p := same_padding_length 2 2 1 1 in
  graph y = GConv1d (GPad 0 1 (graph input_1x2x100)) (graph weight_1x2x41) None 1 (p / 2) 1 1
  /\ p = (p / 2) + (p / 2 + 1).
Proof.
  eexists. split; [reflexivity |].
  apply (conv1d_same_padding_odd_extra_right input_1x2x100 weight_1x2x41 _ None 1 1 1 2 2);
    reflexivity || lia.
Defined.

Lemma InceptionBlock_forward_skips_batchnorm_relu_witness :
  exists blk s' y,
    InceptionBlock_init 2 8 false 1 4 9 [] = (Ok blk, s') /\
    InceptionBlock_forward blk input_1x2x50 = Ok y /\
    mentions_norm_act (graph y) = false.
Proof.
  do 3 eexists.
  match goal with |- ?A = ?B /\ _ => assert (E : A = B) by (cbv; reflexivity) end.
  split; [exact E |].
  match goal with |- ?A = ?B /\ _ => assert (F : A = B) by (cbv; reflexivity) end.
  split; [exact F |].
  exact (InceptionBlock_forward_skips_batchnorm_relu 2 8 1 4 9 [] _ _ input_1x2x50 _
           E eq_refl F).
Defined.

Lemma InceptionBlock_zero_bottleneck_first_conv_witness :
  exists blk s',
    InceptionBlock_init 2 8 false 1 0 9 [] = (Ok blk, s') /\
    exists e, InceptionBlock_forward blk input_1x2x50 = Err e.
Proof.
  do 2 eexists.
  match goal with |- ?A = ?B /\ _ => assert (E : A = B) by (cbv; reflexivity) end.
  split; [exact E |].
  destruct (InceptionBlock_zero_bottleneck_first_conv 2 8 false 1 9 [] _ _ E)
    as (_ & _ & _ & H).
  apply (H input_1x2x50 1 2 50); reflexivity || lia.
Defined.

Lemma InceptionBlock_forward_residual_sum_witness :
  exists blk s',
    InceptionBlock_init 2 3 true 1 1 4 [] = (Ok blk, s') /\
    exists c bn,
      conv_in_channels c = 2 /\ conv_out_channels c = 3 /\
      conv_kernel_size c = 1 /\ num_features bn = 3 /\
      forall x : Tensor,
        InceptionBlock_forward blk x =
          (m <- InceptionBlock_main_path blk x ;;
           r <- Conv1dSamePadding_forward c x ;;
           r <- BatchNorm1d_forward bn r ;;
           r <- ReLU_forward r ;;
           tensor_add m r).
Proof.
  do 2 eexists.
  match goal with |- ?A = ?B /\ _ => assert (E : A = B) by (cbv; reflexivity) end.
  split; [exact E |].
  exact (proj1 (InceptionBlock_forward_residual_sum 2 3 true 1 1 4 [] _ _ E) eq_refl).
Defined.

(** The residual block of the witness above really adds its two branches:
    both have shape [[1, 3, 51]] on a [[1, 2, 50]] input. *)
Example residual_block_sum_shape :
  exists blk s' y,
    InceptionBlock_init 2 3 true 1 1 4 [] = (Ok blk, s') /\
    InceptionBlock_forward blk input_1x2x50 = Ok y /\
    shape y = [1; 3; 51] /\ exists g1 g2, graph y = GAdd g1 g2.
Proof.
  do 3 eexists. split; [cbv; reflexivity |]. split; [cbv; reflexivity |].
  split; [reflexivity |]. do 2 eexists. reflexivity.
Qed.

Lemma InceptionModel_init_list_length_mismatch_witness :
  InceptionModel_init 3 2 (PerBlock [8; 8]) (Scalar 4) (Scalar 9) ResDefault 3 []
    = (Err AssertionError, []).
Proof.
  apply InceptionModel_init_list_length_mismatch.
  left. exists [8; 8]. split; [reflexivity | cbn; lia].
Defined.

Lemma InceptionModel_default_residuals_witness :
  exists m s',
    InceptionModel_init 6 2 (Scalar 8) (Scalar 4) (Scalar 9) ResDefault 3 [] = (Ok m, s') /\
    exists blk, nth_error (blocks m) 5 = Some blk /\ use_residual blk = true.
Proof.
  do 2 eexists.
  match goal with |- ?A = ?B /\ _ => assert (E : A = B) by (cbv; reflexivity) end.
  split; [exact E |].
  destruct (proj1 InceptionModel_default_residuals 6 2 _ _ _ 3 [] _ _ E) as [_ H].
  exact (H 5%nat ltac:(cbn; lia)).
Defined.

Lemma expand_to_blocks_scalar_witness :
  exists l, _expand_to_blocks (Scalar 7%nat) 3 = Ok l /\
            Z.of_nat (length l) = 3 /\ Forall (fun a => a = 7%nat) l.
Proof. apply (expand_to_blocks_scalar nat 7%nat 3). lia. Defined.

(** ** Further properties of the code *)

(** *** What [InceptionBlock.__init__] builds, in order *)

Lemma new_Conv1dSamePadding_log (i o k st : Z) (bias : bool) s c s' :
  new_Conv1dSamePadding i o k st bias s = (Ok c, s') ->
  s' = s ++ [BConv1d i o k st] /\
  conv_in_channels c = i /\ conv_out_channels c = o /\ conv_kernel_size c = k /\
  conv_stride c = st /\ conv_dilation c = 1 /\ conv_groups c = 1 /\ conv_has_bias c = bias.
Proof.
  unfold new_Conv1dSamePadding, lift, raise.
  destruct (_ || _); [discriminate |].
  intros H. apply mbind_ok in H as (a & s1 & Hr & H).
  apply mret_ok in H as [<- ->]. inversion Hr; subst. cbn. tauto.
Qed.

Lemma new_BatchNorm1d_log (n : Z) s b s' :
  new_BatchNorm1d n s = (Ok b, s') -> s' = s ++ [BBatchNorm1d n] /\ num_features b = n.
Proof.
  unfold new_BatchNorm1d, lift, raise. destruct (n <? 0); [discriminate |].
  intros H. apply mbind_ok in H as (a & s1 & Hr & H).
  apply mret_ok in H as [<- ->]. inversion Hr; subst. auto.
Qed.

Lemma new_ReLU_log s i s' : new_ReLU s = (Ok i, s') -> s' = s ++ [BReLU].
Proof. intros H. inversion H. reflexivity. Qed.

Ltac inv_log :=
  repeat match goal with
  | H : mbind _ _ _ = (Ok _, _) |- _ =>
      let a := fresh "a" in let s := fresh "s" in let H1 := fresh "H" in
      apply mbind_ok in H as (a & s & H1 & H)
  | H : mret _ _ = (Ok _, _) |- _ =>
      let E := fresh "E" in let E' := fresh "E" in
      apply mret_ok in H as [E E']; subst
  | H : new_Conv1dSamePadding _ _ _ _ _ _ = (Ok _, _) |- _ =>
      let E := fresh "E" in
      apply new_Conv1dSamePadding_log in H as [E H]; subst
  | H : new_BatchNorm1d _ _ = (Ok _, _) |- _ =>
      let E := fresh "E" in
      apply new_BatchNorm1d_log in H as [E H]; subst
  | H : new_ReLU _ = (Ok _, _) |- _ => apply new_ReLU_log in H; subst
  end.

Lemma InceptionBlock_init_layers :
  forall (in_channels out_channels : Z) (res : bool)
         (stride bottleneck_channels kernel_size : Z) s blk s',
    InceptionBlock_init in_channels out_channels res stride bottleneck_channels
                        kernel_size s = (Ok blk, s') ->
    (0 < bottleneck_channels ->
       exists c, bottleneck blk = Some c /\ conv_in_channels c = in_channels /\
                 conv_out_channels c = bottleneck_channels /\ conv_kernel_size c = 1 /\
                 plain_conv 1 c) /\
    (exists c1 c2 c3,
       conv_layers blk = [LConv c1; LConv c2; LConv c3] /\
       map conv_in_channels [c1; c2; c3] = [bottleneck_channels; out_channels; out_channels] /\
       map conv_out_channels [c1; c2; c3] = [out_channels; out_channels; out_channels] /\
       map conv_kernel_size [c1; c2; c3] = [kernel_size; kernel_size / 2; kernel_size / 4] /\
       Forall (plain_conv stride) [c1; c2; c3]) /\
    num_features (batchnorm blk) = out_channels.
Proof.
  intros in_channels out_channels res stride b k s blk s' H.
  unfold InceptionBlock_init in H. change (range 3) with [0; 1; 2] in H.
  cbn [map length seq mmap nth app repeat last] in H.
  replace (k / 2 ^ 0) with k in H by (rewrite Z.pow_0_r, Z.div_1_r; reflexivity).
  change (2 ^ 1) with 2 in H. change (2 ^ 2) with 4 in H.
  inv_log.
  destruct (0 <? b) eqn:Hb; inv_log; destruct res; inv_log.
  all: cbn [bottleneck conv_layers batchnorm map]; unfold plain_conv.
  all: repeat match goal with H : _ /\ _ |- _ => destruct H end.
  all: split; [intros Hpos | split].
  all: try solve [apply Z.ltb_nlt in Hb; lia].
  all: try solve [eexists; split; [reflexivity | repeat split; assumption]].
  all: try assumption.
  all: try reflexivity.
  all: do 3 eexists; split; [reflexivity |].
  all: repeat split; cbn [map]; try congruence.
  all: repeat constructor; assumption.
Qed.

(** Lines 62-73: the bottleneck, when [bottleneck_channels > 0], is a
    bias-free 1x1 convolution [in_channels -> bottleneck_channels]; the
    three convolutions have kernels [k, k // 2, k // 4] and channels
    [bottleneck_channels -> out -> out -> out]; line 75: the batch norm has
    [out_channels] features. *)
Theorem InceptionBlock_init_schedule :
  forall (in_channels out_channels : Z) (res : bool)
         (stride bottleneck_channels kernel_size : Z) s blk s',
    InceptionBlock_init in_channels out_channels res stride bottleneck_channels
                        kernel_size s = (Ok blk, s') ->
    (0 < bottleneck_channels ->
       exists c, bottleneck blk = Some c /\ conv_in_channels c = in_channels /\
                 conv_out_channels c = bottleneck_channels /\ conv_kernel_size c = 1 /\
                 plain_conv 1 c) /\
    (exists c1 c2 c3,
       conv_layers blk = [LConv c1; LConv c2; LConv c3] /\
       map conv_in_channels [c1; c2; c3] = [bottleneck_channels; out_channels; out_channels] /\
       map conv_out_channels [c1; c2; c3] = [out_channels; out_channels; out_channels] /\
       map conv_kernel_size [c1; c2; c3] = [kernel_size; kernel_size / 2; kernel_size / 4] /\
       Forall (plain_conv stride) [c1; c2; c3]) /\
    num_features (batchnorm blk) = out_channels.
Proof.
  exact InceptionBlock_init_layers.
Qed.

(** Lines 62-85: the layers a block registers, in construction order:
    the bottleneck if [bottleneck_channels > 0], the three convolutions,
    the batch norm and the ReLU, then the residual convolution, batch norm
    and ReLU if [residual]. *)
Theorem InceptionBlock_init_log :
  forall (in_channels out_channels : Z) (res : bool)
         (stride bottleneck_channels kernel_size : Z) s blk s',
    InceptionBlock_init in_channels out_channels res stride bottleneck_channels
                        kernel_size s = (Ok blk, s') ->
    s' = s ++ (if 0 <? bottleneck_channels
               then [BConv1d in_channels bottleneck_channels 1 1] else [])
           ++ [BConv1d bottleneck_channels out_channels kernel_size stride;
               BConv1d out_channels out_channels (kernel_size / 2) stride;
               BConv1d out_channels out_channels (kernel_size / 4) stride;
               BBatchNorm1d out_channels; BReLU]
           ++ (if res then [BConv1d in_channels out_channels 1 stride;
                            BBatchNorm1d out_channels; BReLU] else []).
Proof.
  intros in_channels out_channels res stride b k s blk s' H.
  unfold InceptionBlock_init in H. change (range 3) with [0; 1; 2] in H.
  cbn [map length seq mmap nth app repeat last] in H.
  replace (k / 2 ^ 0) with k in H by (rewrite Z.pow_0_r, Z.div_1_r; reflexivity).
  change (2 ^ 1) with 2 in H. change (2 ^ 2) with 4 in H.
  inv_log.
  destruct (0 <? b); inv_log; destruct res; inv_log;
    rewrite <- !app_assoc; reflexivity.
Qed.

(** *** [conv1d_same_padding]: edge cases and output length *)

(** Lines 119-126: an even total padding adds no [F.pad]; [F.conv1d] gets
    [padding_length // 2] zeros on each side, the total. *)
Theorem conv1d_same_padding_even_symmetric :
  forall (x weight y : Tensor) (bias : option Tensor) (s d g c w1 : Z),
    size x 1 = Ok c -> size weight 1 = Ok w1 -> 0 < s ->
    Z.odd (same_padding_length c w1 s d) = false ->
    conv1d_same_padding x weight bias s d g = Ok y ->
    let p := same_padding_length c w1 s d in
    graph y = GConv1d (graph x) (graph weight) (option_map graph bias) s (p / 2) d g
    /\ p = 2 * (p / 2).
Proof.
  intros x weight y bias s d g c w1 Hx Hw Hs Hev Hy p.
  unfold conv1d_same_padding in Hy. rewrite Hx, Hw in Hy. cbn [rbind] in Hy.
  replace (s =? 0) with false in Hy by (symmetry; apply Z.eqb_neq; lia).
  unfold pad_and_conv in Hy. fold p in Hy, Hev.
  rewrite (even_mod2 p Hev) in Hy. cbn [negb rbind] in Hy.
  split.
  - exact (F_conv1d_graph _ _ _ _ _ _ _ _ Hy).
  - exact (half_even p Hev).
Qed.

(** Lines 114-117: an input and a weight that both have a dimension 1 but
    a zero stride raise [ZeroDivisionError] (Python's [//] by zero). *)
Theorem conv1d_same_padding_zero_stride :
  forall (x weight : Tensor) (bias : option Tensor) (d g c w1 : Z),
    size x 1 = Ok c -> size weight 1 = Ok w1 ->
    conv1d_same_padding x weight bias 0 d g = Err ZeroDivisionError.
Proof.
  intros x weight bias d g c w1 Hx Hw.
  unfold conv1d_same_padding. rewrite Hx, Hw. reflexivity.
Qed.

(** Line 114: an input with fewer than two dimensions raises [IndexError]
    at [input.size(1)], before anything else. *)
Theorem conv1d_same_padding_low_rank :
  forall (x weight : Tensor) (bias : option Tensor) (s d g : Z),
    (length (shape x) < 2)%nat ->
    conv1d_same_padding x weight bias s d g = Err IndexError.
Proof.
  intros x weight bias s d g Hx. unfold conv1d_same_padding, size.
  destruct (shape x) as [| a [| b rest]]; cbn in Hx |- *; [reflexivity | reflexivity | lia].
Qed.



(** Lines 116-126 in isolation: fed a sequence length [L >= 1] and a kernel
    length [k >= 1], the padding formula and the split into an optional
    extra zero plus [p // 2] per side give [F.conv1d] an output length of
    exactly [ceil(L / s)], for any positive stride and dilation. *)
Theorem same_padding_length_keeps_length :
  forall (L k s d : Z),
    1 <= L -> 1 <= k -> 0 < s -> 0 < d ->
    let p := same_padding_length L k s d in
    conv1d_out_length (L + p mod 2) k s (p / 2) d = Ok (ceil_div L s).
Proof.
  intros L k s d HL Hk Hs Hd p.
  rewrite <- (ceil_div_py L s Hs).
  pose proof (Z.div_mod p 2 ltac:(lia)) as Ep.
  unfold conv1d_out_length.
  replace (L + p mod 2 + 2 * (p / 2)) with (L + p) by lia.
  set (q := (L + s - 1) / s).
  pose proof (Z.div_mod (L + s - 1) s ltac:(lia)) as Eq.
  pose proof (Z.mod_pos_bound (L + s - 1) s Hs) as Bq.
  fold q in Eq.
  assert (Hdk : 0 <= d * (k - 1)) by nia.
  assert (Hq1 : 1 <= q) by nia.
  assert (HLq : L <= s * q) by lia.
  unfold p, same_padding_length. fold q.
  destruct (Z.max_spec 0 ((q - 1) * s + ((k - 1) * d + 1) - L)) as [[Hm Hmax] | [Hm Hmax]];
    rewrite Hmax.
  - replace (L + ((q - 1) * s + ((k - 1) * d + 1) - L) <? d * (k - 1) + 1) with false
      by (symmetry; apply Z.ltb_ge; nia).
    f_equal.
    replace (L + ((q - 1) * s + ((k - 1) * d + 1) - L) - d * (k - 1) - 1)
      with ((q - 1) * s) by ring.
    rewrite Z.div_mul by lia. lia.
  - replace (L + 0 <? d * (k - 1) + 1) with false by (symmetry; apply Z.ltb_ge; nia).
    f_equal.
    assert (q - 1 = (L + 0 - d * (k - 1) - 1) / s); [| lia].
    apply (Z.div_unique_pos _ _ _ (L + 0 - d * (k - 1) - 1 - s * (q - 1))); nia.
Qed.

(** *** [InceptionModel]: wiring, head and degenerate sizes *)

Lemma new_Linear_log (i o : Z) s lin s' :
  new_Linear i o s = (Ok lin, s') ->
  s' = s ++ [BLinear i o] /\ in_features lin = i /\ out_features lin = o.
Proof.
  unfold new_Linear, lift, raise. destruct (_ || _); [discriminate |].
  intros H. apply mbind_ok in H as (a & s1 & Hr & H).
  apply mret_ok in H as [<- ->]. inversion Hr; subst. auto.
Qed.

Lemma InceptionModel_init_ok (num_blocks in_channels : Z)
    (out_channels bottleneck_channels kernel_sizes : hyper Z)
    (use_residuals : residuals_arg) (num_pred_classes : Z) s m s' :
  InceptionModel_init num_blocks in_channels out_channels bottleneck_channels kernel_sizes
                      use_residuals num_pred_classes s = (Ok m, s') ->
  exists outs bcs ks urs,
    _expand_to_blocks out_channels num_blocks = Ok outs /\
    _expand_to_blocks bottleneck_channels num_blocks = Ok bcs /\
    _expand_to_blocks kernel_sizes num_blocks = Ok ks /\
    expand_use_residuals use_residuals num_blocks = Ok urs /\
    Forall2 (fun i blk => exists s1 s2,
               InceptionBlock_init (nth i (in_channels :: outs) 0)
                                   (nth (S i) (in_channels :: outs) 0)
                                   (nth i urs false) 1 (nth i bcs 0) (nth i ks 0) s1
               = (Ok blk, s2))
            (seq 0 (Z.to_nat num_blocks)) (blocks m) /\
    in_features (linear m) = last (in_channels :: outs) 0 /\
    out_features (linear m) = num_pred_classes.
Proof.
  intros H. unfold InceptionModel_init in H.
  apply mbind_ok in H as (o & s1 & H1 & H). apply lift_ok in H1 as [Ho ->].
  apply mbind_ok in H as (b & s1 & H1 & H). apply lift_ok in H1 as [Hb ->].
  apply mbind_ok in H as (k & s1 & H1 & H). apply lift_ok in H1 as [Hk ->].
  apply mbind_ok in H as (r & s1 & H1 & H). apply lift_ok in H1 as [Hr ->].
  apply mbind_ok in H as (bl & s1 & Hbl & H).
  apply mbind_ok in H as (lin & s2 & Hlin & H). apply mret_ok in H as [<- _].
  apply new_Linear_log in Hlin as (_ & Hi & Hout).
  exists o, b, k, r. cbn [blocks linear]. repeat split; try assumption.
  exact (mmap_ok _ _ _ _ _ Hbl).
Qed.

Lemma expand_to_blocks_length {A} (v : hyper A) (n : Z) (l : list A) :
  _expand_to_blocks v n = Ok l -> length l = Z.to_nat n.
Proof.
  unfold _expand_to_blocks, raise. destruct v as [a | l'].
  - intros H. inversion H. apply repeat_length.
  - destruct (Z.eqb_spec (Z.of_nat (length l')) n); intros H; inversion H; subst. lia.
Qed.

(** Lines 30-45: in a built model, block [i] is wired from
    [channels[i]] to [channels[i + 1]], with [channels = [in_channels] +
    out_channels]: its batch norm has [channels[i + 1]] features, its
    bottleneck (when used) reads [channels[i]] channels, and the linear
    head maps [channels[-1]] features to [num_pred_classes]. *)
Theorem InceptionModel_init_wiring :
  forall (num_blocks in_channels : Z) (out_channels bottleneck_channels kernel_sizes : hyper Z)
         (use_residuals : residuals_arg) (num_pred_classes : Z) s m s',
    InceptionModel_init num_blocks in_channels out_channels bottleneck_channels kernel_sizes
                        use_residuals num_pred_classes s = (Ok m, s') ->
    exists outs,
      _expand_to_blocks out_channels num_blocks = Ok outs /\
      length (blocks m) = Z.to_nat num_blocks /\
      (forall i blk, nth_error (blocks m) i = Some blk ->
         num_features (batchnorm blk) = nth (S i) (in_channels :: outs) 0 /\
         forall c, bottleneck blk = Some c ->
           conv_in_channels c = nth i (in_channels :: outs) 0) /\
      in_features (linear m) = last (in_channels :: outs) 0 /\
      out_features (linear m) = num_pred_classes.
Proof.
  intros nb ic oc bc ks ur npc s m s' H.
  apply InceptionModel_init_ok in H
    as (outs & bcs & kss & urs & Ho & Hb & Hk & Hr & HF & Hin & Hout).
  exists outs. split; [exact Ho |]. split.
  { apply Forall2_length in HF. rewrite <- HF, length_seq. reflexivity. }
  split; [| split; assumption].
  intros i blk Hi.
  assert (Hlt : (i < Z.to_nat nb)%nat).
  { apply Forall2_length in HF. rewrite length_seq in HF.
    rewrite HF. apply nth_error_Some. congruence. }
  assert (Hs : nth_error (seq 0 (Z.to_nat nb)) i = Some i).
  { rewrite nth_error_seq. destruct (Nat.ltb_spec i (Z.to_nat nb)); [reflexivity | lia]. }
  apply Forall2_flip in HF.
  destruct (Forall2_nth_error_l _ _ _ _ _ HF Hi) as (j & Hj & s1 & s2 & Hinit).
  rewrite Hs in Hj. inversion Hj; subst j.
  pose proof (InceptionBlock_init_layers _ _ _ _ _ _ _ _ _ Hinit) as (Hbot & _ & Hbn).
  split; [exact Hbn |].
  intros c Hc.
  pose proof (InceptionBlock_init_ok _ _ _ _ _ _ _ _ _ Hinit) as (Hub & Hnone & _).
  destruct (0 <? nth i bcs 0) eqn:Hpos.
  - apply Z.ltb_lt in Hpos. destruct (Hbot Hpos) as (c' & Hc' & Hin' & _).
    rewrite Hc in Hc'. inversion Hc'; subst c'. exact Hin'.
  - rewrite Hnone in Hc by exact Hub. discriminate.
Qed.

(** Lines 47-49 with line 45: whenever a built model's forward pass
    succeeds, the last operation is the linear head applied to the mean
    over the last axis (no activation after it), and the last dimension of
    the result is [num_pred_classes]. *)
Theorem InceptionModel_forward_head :
  forall (num_blocks in_channels : Z) (out_channels bottleneck_channels kernel_sizes : hyper Z)
         (use_residuals : residuals_arg) (num_pred_classes : Z) s m s' (x y : Tensor),
    InceptionModel_init num_blocks in_channels out_channels bottleneck_channels kernel_sizes
                        use_residuals num_pred_classes s = (Ok m, s') ->
    InceptionModel_forward m x = Ok y ->
    (exists g, graph y = GLinear (lin_id (linear m)) (GMean g)) /\
    exists rest, shape y = rest ++ [num_pred_classes].
Proof.
  intros nb ic oc bc ks ur npc s m s' x y Hm Hy.
  apply InceptionModel_init_ok in Hm as (_ & _ & _ & _ & _ & _ & _ & _ & _ & _ & Hout).
  unfold InceptionModel_forward in Hy.
  destruct (Sequential_forward _ _ _) as [x1 |]; [| discriminate]. cbn [rbind] in Hy.
  destruct (mean_last x1) as [x2 |] eqn:Hmean; [| discriminate]. cbn [rbind] in Hy.
  unfold mean_last in Hmean.
  destruct (rev (shape x1)) as [| a l]; inversion Hmean; subst x2;
    unfold Linear_forward in Hy; cbn [shape graph] in Hy; [discriminate |].
  destruct (rev (rev l)) as [| f rest]; [discriminate |].
  destruct (f =? in_features (linear m)); [| discriminate].
  inversion Hy; subst y. cbn [shape graph].
  split; [eexists; reflexivity |].
  exists (rev rest). rewrite Hout. reflexivity.
Qed.

(** Lines 30-49 with [num_blocks <= 0]: [range] is empty, so the built
    model has no block, its head reads [in_channels] features, and forward
    is the linear head applied to the mean over the last axis. *)
Theorem InceptionModel_no_blocks :
  forall (num_blocks in_channels : Z) (out_channels bottleneck_channels kernel_sizes : hyper Z)
         (use_residuals : residuals_arg) (num_pred_classes : Z) s m s',
    num_blocks <= 0 ->
    InceptionModel_init num_blocks in_channels out_channels bottleneck_channels kernel_sizes
                        use_residuals num_pred_classes s = (Ok m, s') ->
    blocks m = [] /\ in_features (linear m) = in_channels /\
    forall x : Tensor,
      InceptionModel_forward m x = (y <- mean_last x ;; Linear_forward (linear m) y).
Proof.
  intros nb ic oc bc ks ur npc s m s' Hnb H.
  apply InceptionModel_init_ok in H
    as (outs & bcs & kss & urs & Ho & _ & _ & _ & HF & Hin & _).
  replace (Z.to_nat nb) with 0%nat in HF by lia.
  assert (Hbl : blocks m = []).
  { apply Forall2_length in HF. cbn in HF. destruct (blocks m); [reflexivity | discriminate]. }
  apply expand_to_blocks_length in Ho.
  replace (Z.to_nat nb) with 0%nat in Ho by lia.
  destruct outs; [| discriminate].
  split; [exact Hbl |]. split; [exact Hin |].
  intros x. unfold InceptionModel_forward. rewrite Hbl. reflexivity.
Qed.

(** Lines 33-35 with [num_blocks < 0]: the default residual list is
    empty, its length [0] differs from [num_blocks], and construction
    raises [AssertionError] before any layer is built. *)
Theorem InceptionModel_negative_blocks_default :
  forall (num_blocks in_channels : Z) (out_channels bottleneck_channels kernel_sizes : hyper Z)
         (num_pred_classes : Z) s,
    num_blocks < 0 ->
    InceptionModel_init num_blocks in_channels out_channels bottleneck_channels kernel_sizes
                        ResDefault num_pred_classes s = (Err AssertionError, s).
Proof.
  intros nb ic oc bc ks npc s Hnb.
  unfold InceptionModel_init, mbind, lift.
  destruct (_expand_to_blocks oc nb) as [o | e] eqn:E1;
    [| rewrite (expand_to_blocks_err _ _ _ E1); reflexivity].
  destruct (_expand_to_blocks bc nb) as [b | e] eqn:E2;
    [| rewrite (expand_to_blocks_err _ _ _ E2); reflexivity].
  destruct (_expand_to_blocks ks nb) as [k | e] eqn:E3;
    [| rewrite (expand_to_blocks_err _ _ _ E3); reflexivity].
  unfold expand_use_residuals, default_residuals, range.
  replace (Z.to_nat nb) with 0%nat by lia.
  rewrite expand_to_blocks_mismatch by (cbn; lia). reflexivity.
Qed.

(** *** Block shapes under stride 1 *)

Lemma Conv1dSamePadding_forward_len (c : Conv1dSamePadding) (x : Tensor) (n ch l : Z) :
  plain_conv 1 c -> conv_in_channels c = ch -> 1 <= ch -> shape x = [n; ch; l] ->
  1 <= conv_out_channels c -> 1 <= conv_kernel_size c ->
  conv_kernel_size c <= l + ch - 1 ->
  exists y, Conv1dSamePadding_forward c x = Ok y /\
            shape y = [n; conv_out_channels c; l + ch - conv_kernel_size c].
Proof.
  intros (Hs & Hd & Hg & Hb) Hin Hch Hx Ho Hk1 Hk.
  unfold Conv1dSamePadding_forward, conv_bias. rewrite Hs, Hd, Hg, Hb.
  apply (conv1d_same_padding_unit_length x (conv_weight c) n ch l
           (conv_out_channels c) (conv_kernel_size c)); try assumption.
  unfold conv_weight. cbn [shape]. rewrite Hg, Hin, Z.div_1_r. reflexivity.
Qed.

Lemma InceptionBlock_main_path_len (in_channels out_channels : Z) (res : bool)
    (bottleneck_channels kernel_size : Z) s blk s' (x : Tensor) (n l : Z) :
  InceptionBlock_init in_channels out_channels res 1 bottleneck_channels kernel_size s
    = (Ok blk, s') ->
  1 <= in_channels -> 1 <= bottleneck_channels -> 1 <= out_channels -> 1 <= l ->
  4 <= kernel_size -> shape x = [n; in_channels; l] ->
  let '(l0, l1, l2, l3) :=
    main_path_lengths in_channels bottleneck_channels out_channels kernel_size l in
  kernel_size <= l0 + bottleneck_channels - 1 ->
  kernel_size / 2 <= l1 + out_channels - 1 ->
  kernel_size / 4 <= l2 + out_channels - 1 ->
  exists y, InceptionBlock_main_path blk x = Ok y /\ shape y = [n; out_channels; l3].
Proof.
  intros H Hic Hbc Hoc Hl H4 Hx. cbn.
  intros H1 H2 H3.
  assert (K2 : 1 <= kernel_size / 2) by (apply Z.div_le_lower_bound; lia).
  assert (K4 : 1 <= kernel_size / 4) by (apply Z.div_le_lower_bound; lia).
  pose proof (InceptionBlock_init_layers _ _ _ _ _ _ _ _ _ H)
    as (Hbot & (c1 & c2 & c3 & Hl3 & Hins & Houts & Hks & Hpl) & _).
  pose proof (InceptionBlock_init_ok _ _ _ _ _ _ _ _ _ H) as (Hub & _).
  destruct (Hbot ltac:(lia)) as (c0 & Hc0 & Hin0 & Hout0 & Hk0 & Hp0).
  cbn [map] in Hins, Houts, Hks.
  injection Hins as Hi1 Hi2 Hi3. injection Houts as Ho1 Ho2 Ho3.
  injection Hks as Hk1 Hk2 Hk3.
  inversion Hpl as [| ? ? Hp1 Hpl']. inversion Hpl' as [| ? ? Hp2 Hpl''].
  inversion Hpl'' as [| ? ? Hp3 _].
  unfold InceptionBlock_main_path.
  replace (use_bottleneck blk) with true by (rewrite Hub; symmetry; apply Z.ltb_lt; lia).
  rewrite Hc0, Hl3.
  destruct (Conv1dSamePadding_forward_len c0 x n in_channels l Hp0 Hin0 Hic Hx
              ltac:(lia) ltac:(lia) ltac:(lia))
    as (y0 & E0 & S0).
  rewrite E0. cbn [rbind Sequential_forward layer_forward]. rewrite Hout0, Hk0 in S0.
  destruct (Conv1dSamePadding_forward_len c1 y0 n bottleneck_channels (l + in_channels - 1)
              Hp1 Hi1 Hbc ltac:(rewrite S0; f_equal; f_equal; f_equal; lia)
              ltac:(lia) ltac:(lia) ltac:(lia)) as (y1 & E1 & S1).
  rewrite Ho1, Hk1 in S1.
  rewrite E1. cbn [rbind].
  destruct (Conv1dSamePadding_forward_len c2 y1 n out_channels
              (l + in_channels - 1 + bottleneck_channels - kernel_size)
              Hp2 Hi2 Hoc S1 ltac:(lia) ltac:(lia) ltac:(rewrite Hk2; lia))
    as (y2 & E2 & S2).
  rewrite Ho2, Hk2 in S2.
  rewrite E2. cbn [rbind].
  destruct (Conv1dSamePadding_forward_len c3 y2 n out_channels
              (l + in_channels - 1 + bottleneck_channels - kernel_size + out_channels
               - kernel_size / 2)
              Hp3 Hi3 Hoc S2 ltac:(lia) ltac:(lia) ltac:(rewrite Hk3; lia))
    as (y3 & E3 & S3).
  rewrite E3. cbn [rbind]. eexists; split; [reflexivity |].
  rewrite S3, Ho3, Hk3. reflexivity.
Qed.

Lemma InceptionBlock_init_residual_plain (in_channels out_channels : Z) (res : bool)
    (stride bottleneck_channels kernel_size : Z) s blk s' :
  InceptionBlock_init in_channels out_channels res stride bottleneck_channels
                      kernel_size s = (Ok blk, s') ->
  res = true ->
  exists c bn, residual blk = Some [LConv c; LBatchNorm bn; LReLU] /\
    conv_in_channels c = in_channels /\ conv_out_channels c = out_channels /\
    conv_kernel_size c = 1 /\ plain_conv stride c /\ num_features bn = out_channels.
Proof.
  intros H ->.
  unfold InceptionBlock_init in H. change (range 3) with [0; 1; 2] in H.
  cbn [map length seq mmap nth app repeat last] in H.
  inv_log.
  destruct (0 <? bottleneck_channels); inv_log.
  all: cbn [residual]; unfold plain_conv.
  all: repeat match goal with H : _ /\ _ |- _ => destruct H end.
  all: do 2 eexists; split; [reflexivity |]; repeat split; assumption.
Qed.

Lemma InceptionBlock_residual_path_len (in_channels out_channels : Z) (res : bool)
    (bottleneck_channels kernel_size : Z) s blk s' (x : Tensor) (n l : Z) :
  InceptionBlock_init in_channels out_channels res 1 bottleneck_channels kernel_size s
    = (Ok blk, s') ->
  res = true -> 1 <= in_channels -> 1 <= out_channels -> 1 <= l ->
  shape x = [n; in_channels; l] -> n * (l + in_channels - 1) <> 1 ->
  exists r y, residual blk = Some r /\ Sequential_forward layer_forward r x = Ok y /\
              shape y = [n; out_channels; l + in_channels - 1].
Proof.
  intros H Hr Hic Hoc Hl Hx Hbatch.
  destruct (InceptionBlock_init_residual_plain _ _ _ _ _ _ _ _ _ H Hr)
    as (c & bn & Hres & Hin & Hout & Hk & Hp & Hbn).
  destruct (Conv1dSamePadding_forward_len c x n in_channels l Hp Hin Hic Hx
              ltac:(lia) ltac:(lia) ltac:(lia))
    as (y & E & S).
  rewrite Hout, Hk in S.
  exists [LConv c; LBatchNorm bn; LReLU].
  cbn [Sequential_forward layer_forward]. rewrite E. cbn [rbind].
  unfold BatchNorm1d_forward. rewrite S, Hbn, Z.eqb_refl.
  replace (n * (l + in_channels - 1) =? 1) with false
    by (symmetry; apply Z.eqb_neq; exact Hbatch).
  cbn [rbind].
  eexists; split; [exact Hres | split; [reflexivity |]].
  reflexivity.
Qed.

(** Lines 87-95 with lines 62-76: a block built without residual and with
    stride 1 and [bottleneck_channels > 0], applied to an input
    [(n, in_channels, l)], returns [(n, out_channels, l3)], where each
    convolution adds its input channel count minus its kernel size to the
    length ([main_path_lengths]); the block's batch norm and ReLU do not
    take part. [kernel_size >= 4] keeps the third kernel [kernel_size // 4]
    positive, and each kernel must fit its padded input. *)
Theorem InceptionBlock_forward_no_residual_shape :
  forall (in_channels out_channels bottleneck_channels kernel_size : Z) s blk s'
         (x : Tensor) (n l : Z),
    InceptionBlock_init in_channels out_channels false 1 bottleneck_channels kernel_size s
      = (Ok blk, s') ->
    1 <= in_channels -> 1 <= bottleneck_channels -> 1 <= out_channels -> 1 <= l ->
    4 <= kernel_size -> shape x = [n; in_channels; l] ->
    let '(l0, l1, l2, l3) :=
      main_path_lengths in_channels bottleneck_channels out_channels kernel_size l in
    kernel_size <= l0 + bottleneck_channels - 1 ->
    kernel_size / 2 <= l1 + out_channels - 1 ->
    kernel_size / 4 <= l2 + out_channels - 1 ->
    exists y, InceptionBlock_forward blk x = Ok y /\ shape y = [n; out_channels; l3].
Proof.
  intros ic oc bc k s blk s' x n l H Hic Hbc Hoc Hl H4 Hx.
  pose proof (InceptionBlock_main_path_len ic oc false bc k s blk s' x n l
                H Hic Hbc Hoc Hl H4 Hx) as Hm.
  pose proof (InceptionBlock_init_ok _ _ _ _ _ _ _ _ _ H) as (_ & _ & _ & Hur & _).
  cbn in Hm |- *. intros H1 H2 H3.
  destruct (Hm H1 H2 H3) as (y & Ey & Sy).
  exists y. split; [| exact Sy].
  unfold InceptionBlock_main_path in Ey. unfold InceptionBlock_forward.
  rewrite Hur.
  destruct (if use_bottleneck blk then _ else _); cbn [rbind] in Ey |- *; [| discriminate].
  rewrite Ey. reflexivity.
Qed.

(** Lines 87-95 with lines 62-85: in a residual block with stride 1 and
    [bottleneck_channels > 0], the residual branch keeps length
    [l0 = l + in_channels - 1] while the main path ends at [l3]; the sum
    succeeds with shape [(n, out_channels, l0)] when [l3 = l0], and raises
    a RuntimeError when the lengths differ and neither is 1. As for a block
    without residual, [kernel_size >= 4] and each kernel fitting its padded
    input keep the main path defined; [n * l0 <> 1] keeps the residual
    batch norm, in training mode, from raising [ValueError]. *)
Theorem InceptionBlock_forward_residual_lengths :
  forall (in_channels out_channels bottleneck_channels kernel_size : Z) s blk s'
         (x : Tensor) (n l : Z),
    InceptionBlock_init in_channels out_channels true 1 bottleneck_channels kernel_size s
      = (Ok blk, s') ->
    1 <= in_channels -> 1 <= bottleneck_channels -> 1 <= out_channels -> 1 <= l ->
    4 <= kernel_size -> shape x = [n; in_channels; l] ->
    let '(l0, l1, l2, l3) :=
      main_path_lengths in_channels bottleneck_channels out_channels kernel_size l in
    n * l0 <> 1 ->
    kernel_size <= l0 + bottleneck_channels - 1 ->
    kernel_size / 2 <= l1 + out_channels - 1 ->
    kernel_size / 4 <= l2 + out_channels - 1 ->
    (l3 = l0 -> exists y, InceptionBlock_forward blk x = Ok y /\
                          shape y = [n; out_channels; l0]) /\
    (l3 <> l0 -> l3 <> 1 -> l0 <> 1 -> InceptionBlock_forward blk x = Err RuntimeError).
Proof.
  intros ic oc bc k s blk s' x n l H Hic Hbc Hoc Hl H4 Hx.
  pose proof (InceptionBlock_main_path_len ic oc true bc k s blk s' x n l
                H Hic Hbc Hoc Hl H4 Hx) as Hm.
  pose proof (InceptionBlock_init_ok _ _ _ _ _ _ _ _ _ H) as (_ & _ & _ & Hur & _).
  cbn in Hm |- *. intros Hbatch H1 H2 H3.
  destruct (InceptionBlock_residual_path_len ic oc true bc k s blk s' x n l
              H eq_refl Hic Hoc Hl Hx Hbatch) as (r & yr & Hr & Er & Sr).
  destruct (Hm H1 H2 H3) as (y & Ey & Sy).
  assert (Hf : InceptionBlock_forward blk x = tensor_add y yr).
  { unfold InceptionBlock_main_path in Ey. unfold InceptionBlock_forward.
    rewrite Hur, Hr.
    destruct (if use_bottleneck blk then _ else _); cbn [rbind] in Ey |- *;
      [| discriminate].
    rewrite Ey. cbn [rbind]. rewrite Er. reflexivity. }
  rewrite Hf. unfold tensor_add. rewrite Sy, Sr. cbn [rev app broadcast_rev].
  rewrite !Z.eqb_refl.
  set (l3 := l + ic - 1 + bc - k + oc - k / 2 + oc - k / 4).
  split.
  - intros E. rewrite E, Z.eqb_refl. eexists; split; [reflexivity | reflexivity].
  - intros E E1 E2.
    apply Z.eqb_neq in E, E1, E2. rewrite E, E1, E2. reflexivity.
Qed.

(** Lines 62-65 and 87-91: a block with [bottleneck_channels > 0] fails
    on a 3-d input whose channel count differs from [in_channels]: its
    bottleneck convolution rejects it, whatever the residual setting. *)
Theorem InceptionBlock_forward_wrong_channels :
  forall (in_channels out_channels : Z) (res : bool)
         (stride bottleneck_channels kernel_size : Z) s blk s' (x : Tensor) (n c l : Z),
    InceptionBlock_init in_channels out_channels res stride bottleneck_channels
                        kernel_size s = (Ok blk, s') ->
    0 < bottleneck_channels -> shape x = [n; c; l] -> c <> in_channels ->
    exists e, InceptionBlock_forward blk x = Err e.
Proof.
  intros ic oc res st bc k s blk s' x n c l H Hb Hx Hc.
  pose proof (InceptionBlock_init_layers _ _ _ _ _ _ _ _ _ H) as (Hbot & _).
  pose proof (InceptionBlock_init_ok _ _ _ _ _ _ _ _ _ H) as (Hub & _).
  destruct (Hbot Hb) as (c0 & Hc0 & Hin0 & _ & _ & (Hs0 & Hd0 & Hg0 & Hbi0)).
  unfold InceptionBlock_forward.
  replace (use_bottleneck blk) with true by (rewrite Hub; symmetry; apply Z.ltb_lt; lia).
  rewrite Hc0. unfold Conv1dSamePadding_forward, conv_bias.
  rewrite Hs0, Hd0, Hg0, Hbi0.
  destruct (conv1d_same_padding_mismatch x (conv_weight c0) None 1 1 1 n c l
              (conv_out_channels c0) (conv_in_channels c0 / 1) (conv_kernel_size c0)
              Hx ltac:(unfold conv_weight; cbn [shape]; rewrite Hg0; reflexivity)
              ltac:(rewrite Hin0, Z.div_1_r; lia)) as (e & He).
  rewrite He. exists e. reflexivity.
Qed.

(** ** Witnesses of the further properties *)

Lemma InceptionBlock_init_schedule_witness :
  exists blk s',
    InceptionBlock_init 2 8 true 1 4 9 [] = (Ok blk, s') /\
    num_features (batchnorm blk) = 8.
Proof.
  do 2 eexists.
  match goal with |- ?A = ?B /\ _ => assert (E : A = B) by (cbv; reflexivity) end.
  split; [exact E |].
  exact (proj2 (proj2 (InceptionBlock_init_schedule 2 8 true 1 4 9 [] _ _ E))).
Defined.

Lemma InceptionBlock_init_log_witness :
  exists blk s',
    InceptionBlock_init 2 8 true 1 4 9 [] = (Ok blk, s') /\ length s' = 9%nat.
Proof.
  do 2 eexists.
  match goal with |- ?A = ?B /\ _ => assert (E : A = B) by (cbv; reflexivity) end.
  split; [exact E |].
  rewrite (InceptionBlock_init_log 2 8 true 1 4 9 [] _ _ E). reflexivity.
Defined.

Lemma conv1d_same_padding_even_symmetric_witness :
  exists y,
    conv1d_same_padding input_1x3x50 weight_4x3x5 None 1 1 1 = Ok y /\
    graph y = GConv1d GInput (GParam 0) None 1 1 1 1.
Proof.
  eexists.
  match goal with |- ?A = ?B /\ _ => assert (F : A = B) by (cbv; reflexivity) end.
  split; [exact F |].
  exact (proj1 (conv1d_same_padding_even_symmetric input_1x3x50 weight_4x3x5 _ None
                  1 1 1 3 3 eq_refl eq_refl ltac:(lia) eq_refl F)).
Defined.

Lemma conv1d_same_padding_zero_stride_witness :
  conv1d_same_padding input_1x2x100 weight_1x2x41 None 0 1 1 = Err ZeroDivisionError.
Proof.
  exact (conv1d_same_padding_zero_stride input_1x2x100 weight_1x2x41 None 1 1 2 2
           eq_refl eq_refl).
Defined.

Lemma conv1d_same_padding_low_rank_witness :
  conv1d_same_padding input_5 weight_1x2x41 None 1 1 1 = Err IndexError.
Proof.
  exact (conv1d_same_padding_low_rank input_5 weight_1x2x41 None 1 1 1
           ltac:(cbn; lia)).
Defined.


Lemma same_padding_length_keeps_length_witness :
  conv1d_out_length (100 + same_padding_length 100 41 1 1 mod 2) 41 1
                    (same_padding_length 100 41 1 1 / 2) 1 = Ok 100.
Proof.
  exact (same_padding_length_keeps_length 100 41 1 1
           ltac:(lia) ltac:(lia) ltac:(lia) ltac:(lia)).
Defined.

Lemma InceptionModel_init_wiring_witness :
  exists m s',
    InceptionModel_init 2 2 (Scalar 8) (Scalar 4) (Scalar 9) ResDefault 3 [] = (Ok m, s') /\
    in_features (linear m) = 8.
Proof.
  do 2 eexists.
  match goal with |- ?A = ?B /\ _ => assert (E : A = B) by (cbv; reflexivity) end.
  split; [exact E |].
  destruct (InceptionModel_init_wiring 2 2 (Scalar 8) (Scalar 4) (Scalar 9) ResDefault 3
              [] _ _ E) as (outs & Hex & _ & _ & Hin & _).
  rewrite Hin. cbv in Hex. injection Hex as <-. reflexivity.
Defined.

Lemma InceptionModel_forward_head_witness :
  exists m s' y,
    InceptionModel_init 1 2 (Scalar 8) (Scalar 4) (Scalar 9) (ResFlag false) 3 []
      = (Ok m, s') /\
    InceptionModel_forward m input_1x2x50 = Ok y /\
    exists rest, shape y = rest ++ [3].
Proof.
  do 3 eexists.
  match goal with |- ?A = ?B /\ _ => assert (E : A = B) by (cbv; reflexivity) end.
  split; [exact E |].
  match goal with |- ?A = ?B /\ _ => assert (F : A = B) by (cbv; reflexivity) end.
  split; [exact F |].
  exact (proj2 (InceptionModel_forward_head 1 2 (Scalar 8) (Scalar 4) (Scalar 9)
                  (ResFlag false) 3 [] _ _ input_1x2x50 _ E F)).
Defined.

Lemma InceptionModel_no_blocks_witness :
  exists m s',
    InceptionModel_init 0 2 (Scalar 8) (Scalar 4) (Scalar 9) (ResFlag false) 3 []
      = (Ok m, s') /\
    blocks m = [] /\ in_features (linear m) = 2.
Proof.
  do 2 eexists.
  match goal with |- ?A = ?B /\ _ => assert (E : A = B) by (cbv; reflexivity) end.
  split; [exact E |].
  destruct (InceptionModel_no_blocks 0 2 (Scalar 8) (Scalar 4) (Scalar 9) (ResFlag false)
              3 [] _ _ ltac:(lia) E) as (Hb & Hi & _).
  split; assumption.
Defined.

Lemma InceptionModel_negative_blocks_default_witness :
  InceptionModel_init (-1) 2 (Scalar 8) (Scalar 4) (Scalar 9) ResDefault 3 []
    = (Err AssertionError, []).
Proof.
  exact (InceptionModel_negative_blocks_default (-1) 2 (Scalar 8) (Scalar 4) (Scalar 9) 3 []
           ltac:(lia)).
Defined.

Lemma InceptionBlock_forward_no_residual_shape_witness :
  exists blk s',
    InceptionBlock_init 2 8 false 1 4 9 [] = (Ok blk, s') /\
    exists y, InceptionBlock_forward blk input_1x2x50 = Ok y /\ shape y = [1; 8; 56].
Proof.
  do 2 eexists.
  match goal with |- ?A = ?B /\ _ => assert (E : A = B) by (cbv; reflexivity) end.
  split; [exact E |].
  pose proof (InceptionBlock_forward_no_residual_shape 2 8 4 9 [] _ _ input_1x2x50 1 50
                E ltac:(lia) ltac:(lia) ltac:(lia) ltac:(lia) ltac:(lia) eq_refl) as H.
  unfold main_path_lengths in H. cbn zeta in H.
  exact (H ltac:(vm_compute; intro; discriminate) ltac:(vm_compute; intro; discriminate)
           ltac:(vm_compute; intro; discriminate)).
Defined.

Lemma InceptionBlock_forward_residual_lengths_witness :
  exists blk s',
    InceptionBlock_init 2 8 true 1 4 9 [] = (Ok blk, s') /\
    InceptionBlock_forward blk input_1x2x50 = Err RuntimeError.
Proof.
  do 2 eexists.
  match goal with |- ?A = ?B /\ _ => assert (E : A = B) by (cbv; reflexivity) end.
  split; [exact E |].
  pose proof (InceptionBlock_forward_residual_lengths 2 8 4 9 [] _ _ input_1x2x50 1 50
                E ltac:(lia) ltac:(lia) ltac:(lia) ltac:(lia) ltac:(lia) eq_refl) as H.
  unfold main_path_lengths in H. cbn zeta in H.
  destruct (H ltac:(vm_compute; discriminate) ltac:(vm_compute; intro; discriminate) ltac:(vm_compute; intro; discriminate)
              ltac:(vm_compute; intro; discriminate)) as [_ H'].
  exact (H' ltac:(vm_compute; discriminate) ltac:(vm_compute; discriminate)
            ltac:(vm_compute; discriminate)).
Defined.

Lemma InceptionBlock_forward_wrong_channels_witness :
  exists blk s',
    InceptionBlock_init 3 8 false 1 4 9 [] = (Ok blk, s') /\
    exists e, InceptionBlock_forward blk input_1x2x50 = Err e.
Proof.
  do 2 eexists.
  match goal with |- ?A = ?B /\ _ => assert (E : A = B) by (cbv; reflexivity) end.
  split; [exact E |].
  exact (InceptionBlock_forward_wrong_channels 3 8 false 1 4 9 [] _ _ input_1x2x50 1 2 50
           E ltac:(lia) eq_refl ltac:(lia)).
Defined.
